(** * save-load-state: the snapshot / restore continuation harness

    A shallow embedding of [examples/save-load-state/save-load-state.cpp].
    The program is one function, [main], that drives the llama library
    (llama.h, common.h) and the C standard I/O library.  Both libraries are
    interfaces here ([LlamaLib], [Stdio]); [main] is a program in a small
    monad that threads the storage, can stop early (exit code, undefined
    behaviour, uncaught exception) and records every library call it makes,
    in order. *)

From Stdlib Require Import ZArith NArith String Ascii Strings.Byte Bool Lia List.
Import ListNotations.
Local Open Scope Z_scope.
Local Open Scope list_scope.

Set Implicit Arguments.

(** ** C data *)

(** [llama_token] is [int]; arithmetic on [int] is done in [Z] and the one
    place that could leave the 32-bit range is guarded ([int_incr]). *)
Definition llama_token := Z.
Definition INT_MAX : Z := 2147483647.

(** The newline character of the C string literals. *)
Definition nl : string := String (ascii_of_nat 10) EmptyString.

(** The fields of [gpt_params] (common.h) that [main] reads or writes. *)
Record gpt_params := {
  seed : Z;
  n_threads : Z;
  n_predict : Z;
  repeat_last_n : Z;
  n_ctx : Z;
  memory_f16 : bool;
  use_mmap : bool;
  use_mlock : bool;
  prompt : string;
  model : string
}.

(** The fields of [llama_context_params] (llama.h) that [main] sets; the
    others keep the values of [llama_context_default_params()]. *)
Record llama_context_params := {
  lp_n_ctx : Z;
  lp_seed : Z;
  lp_f16_kv : bool;
  lp_use_mmap : bool;
  lp_use_mlock : bool
}.

(** The two engine handles of [main]: [ctx] and [ctx2]. *)
Inductive handle := ctxA | ctxB.

Definition handle_eqb (a b : handle) : bool :=
  match a, b with
  | ctxA, ctxA | ctxB, ctxB => true
  | _, _ => false
  end.

Section Program.

(** [float] is opaque: [main] only copies logits into the candidate array.
    [zero_f] is the literal [0.0f]. *)
Variable float : Type.
Variable zero_f : float.

Record llama_token_data := {
  id : llama_token;
  logit : float;
  p : float
}.

Record llama_token_data_array := {
  data : list llama_token_data;
  size : N;
  sorted : bool
}.

(** ** The libraries [main] calls *)

(** llama.h, common.h and build-info.h.  A context pointer is modelled by
    the state it points to; a call that mutates the context returns the new
    state.  A (pointer, count) pair is a list. *)
Class LlamaLib := {
  llama_context : Type;
  (* common.h: the default member initialisers and the argument parser *)
  gpt_params_default : gpt_params;
  gpt_params_parse : list string -> gpt_params -> bool * gpt_params;
  (* build-info.h; BUILD_NUMBER as "%d" prints it *)
  BUILD_NUMBER : string;
  BUILD_COMMIT : string;
  (* llama.h *)
  llama_init_from_file : string -> llama_context_params -> option llama_context;
  (* text, the caller's token buffer, n_max_tokens, add_bos; gives the
     buffer after the call and the returned count *)
  llama_tokenize :
    llama_context -> string -> list llama_token -> Z -> bool ->
    list llama_token * Z;
  (* tokens, n_past, n_threads; gives the returned int (0 on success) *)
  llama_eval :
    llama_context -> list llama_token -> Z -> Z -> llama_context * Z;
  llama_get_state_size : llama_context -> N;
  llama_copy_state_data : llama_context -> list byte;
  llama_set_state_data : llama_context -> list byte -> llama_context;
  llama_get_logits : llama_context -> Z -> float;
  llama_n_vocab : llama_context -> Z;
  llama_sample_token :
    llama_context -> llama_token_data_array -> llama_context * llama_token;
  llama_token_to_str : llama_context -> llama_token -> string;
  (* contracts of llama.h that the caller relies on for memory safety *)
  llama_copy_state_data_length : forall c,
    N.of_nat (length (llama_copy_state_data c)) = llama_get_state_size c;
  llama_tokenize_buffer : forall c s buf n_max b,
    length (fst (llama_tokenize c s buf n_max b)) = length buf;
  llama_tokenize_bound : forall c s buf n_max b,
    0 <= n_max -> snd (llama_tokenize c s buf n_max b) <= n_max
}.

(** cstdio: the storage [FS] is threaded through the calls. *)
Class Stdio := {
  FS : Type;
  FILE : Type;
  fopen : FS -> string -> string -> FS * option FILE;
  (* fwrite(ptr, 1, n, fp): the n bytes at ptr; gives the count written *)
  fwrite : FS -> FILE -> list byte -> FS * N;
  (* fread(ptr, 1, n, fp): gives the bytes read, at most n of them *)
  fread : FS -> FILE -> N -> FS * list byte;
  fclose : FS -> FILE -> FS
}.

Context {LL : LlamaLib} {IO : Stdio}.

(** ** Observable events: every library call of [main], in order *)

Inductive event :=
| Stdout (s : string)
| Stderr (s : string)
| InitFromFile (h : handle) (ok : bool)
| Tokenize (text : string) (n_max : Z) (ret : Z)
| Eval (h : handle) (toks : list llama_token) (n_past n_thr : Z) (ret : Z)
| GetStateSize (h : handle) (n : N)
| CopyStateData (h : handle) (bytes : list byte)
| SetStateData (h : handle) (bytes : list byte)
| SampleToken (h : handle) (cands : llama_token_data_array) (tok : llama_token)
| Free (h : handle)
| Fopen (path mode : string) (ok : bool)
| Fwrite (bytes : list byte) (ret : N)
| Fread (count : N) (ret : N)
| Fclose.

(** ** The monad of [main] *)

(** How a run can end before the final [return 0]. *)
Inductive status :=
| Exit (code : Z)      (* return from main *)
| Crash                (* undefined behaviour: null pointer, int overflow *)
| Abort.               (* uncaught C++ exception: std::terminate *)

Inductive result (A : Type) :=
| Ret (a : A)
| Stop (s : status).
Arguments Stop {A} s.

Definition M (A : Type) : Type := FS -> result A * FS * list event.

Definition ret {A} (a : A) : M A := fun fs => (Ret a, fs, []).

Definition bind {A B} (m : M A) (f : A -> M B) : M B :=
  fun fs =>
    match m fs with
    | (Ret a, fs1, t1) =>
        match f a fs1 with
        | (r, fs2, t2) => (r, fs2, t1 ++ t2)
        end
    | (Stop s, fs1, t1) => (Stop s, fs1, t1)
    end.

Definition stop {A} (s : status) : M A := fun fs => (Stop s, fs, []).

Definition emit (e : event) : M unit := fun fs => (Ret tt, fs, [e]).

Notation "x <- m ;; k" := (bind m (fun x => k))
  (at level 100, m at next level, right associativity).
Notation "m ;;; k" := (bind m (fun _ => k))
  (at level 100, right associativity).

(** A pointer is an [option]: [None] is the null pointer. *)
Definition non_null {A} (ptr : option A) : bool :=
  match ptr with
  | Some _ => true
  | None => false
  end.

(** Dereferencing a pointer that may be null. *)
Definition deref {A} (ptr : option A) : M A :=
  match ptr with
  | Some a => ret a
  | None => stop Crash
  end.

(** [std::vector<T>(n, v)] and [reserve(n)] with an [int] argument: a
    negative [n] converts to a size above [max_size()] and throws
    [std::length_error], which [main] does not catch. *)
Definition new_vector {A} (n : Z) (v : A) : M (list A) :=
  if n <? 0 then stop Abort else ret (repeat v (Z.to_nat n)).

Definition vector_reserve (A : Type) (n : Z) : M (list A) :=
  if n <? 0 then stop Abort else ret [].

(** [n += 1] on an [int]: signed overflow is undefined. *)
Definition int_incr (n : Z) : M Z :=
  if INT_MAX <? n + 1 then stop Crash else ret (n + 1).

(** [for (auto i = 0; i < n; i++) body], the body run on a state [S]. *)
Fixpoint for_loop {S} (fuel : nat) (i : Z) (body : Z -> S -> M S) (s : S)
  : M S :=
  match fuel with
  | O => ret s
  | Datatypes.S k => s1 <- body i s ;; for_loop k (i + 1) body s1
  end.

Definition for_range {S} (n : Z) (body : Z -> S -> M S) (s : S) : M S :=
  for_loop (Z.to_nat n) 0 body s.

(** The library calls, each recording its event. *)

Definition call_init_from_file (h : handle) (path : string)
  (lp : llama_context_params) : M (option llama_context) :=
  let c := llama_init_from_file path lp in
  emit (InitFromFile h (non_null c)) ;;;
  ret c.

Definition call_tokenize (c : llama_context) (text : string)
  (buf : list llama_token) (n_max : Z) (add_bos : bool)
  : M (list llama_token * Z) :=
  let r := llama_tokenize c text buf n_max add_bos in
  emit (Tokenize text n_max (snd r)) ;;;
  ret r.

Definition call_eval (h : handle) (c : llama_context)
  (toks : list llama_token) (n_past n_thr : Z) : M (llama_context * Z) :=
  let r := llama_eval c toks n_past n_thr in
  emit (Eval h toks n_past n_thr (snd r)) ;;;
  ret r.

Definition call_get_state_size (h : handle) (c : llama_context) : M N :=
  let n := llama_get_state_size c in
  emit (GetStateSize h n) ;;;
  ret n.

Definition call_copy_state_data (h : handle) (c : llama_context)
  : M (list byte) :=
  let b := llama_copy_state_data c in
  emit (CopyStateData h b) ;;;
  ret b.

Definition call_set_state_data (h : handle) (c : llama_context)
  (src : list byte) : M llama_context :=
  emit (SetStateData h src) ;;;
  ret (llama_set_state_data c src).

Definition call_sample_token (h : handle) (c : llama_context)
  (cands : llama_token_data_array) : M (llama_context * llama_token) :=
  let r := llama_sample_token c cands in
  emit (SampleToken h cands (snd r)) ;;;
  ret r.

Definition call_fopen (path mode : string) : M (option FILE) :=
  fun fs =>
    let '(fs1, fp) := fopen fs path mode in
    (Ret fp, fs1, [Fopen path mode (non_null fp)]).

(** [fwrite], [fread] and [fclose] on a null stream are undefined. *)
Definition call_fwrite (bytes : list byte) (fp : option FILE) : M N :=
  match fp with
  | None => stop Crash
  | Some f => fun fs =>
      let '(fs1, n) := fwrite fs f bytes in
      (Ret n, fs1, [Fwrite bytes n])
  end.

Definition call_fread (count : N) (fp : option FILE) : M (list byte) :=
  match fp with
  | None => stop Crash
  | Some f => fun fs =>
      let '(fs1, bytes) := fread fs f count in
      (Ret bytes, fs1, [Fread count (N.of_nat (length bytes))])
  end.

Definition call_fclose (fp : option FILE) : M unit :=
  match fp with
  | None => stop Crash
  | Some f => fun fs => (Ret tt, fclose fs f, [Fclose])
  end.

(** ** The local variables of [main] *)

(** One field per local of [main] that lives across statements.  A local
    that is declared later holds a placeholder until its declaration. *)
Record frame := {
  params : gpt_params;
  lparams : llama_context_params;
  n_past : Z;
  last_n_tokens_data : list llama_token;
  ctx : option llama_context;
  tokens : list llama_token;
  n_prompt_tokens : Z;
  state_size : N;
  state_mem : list byte;
  last_n_tokens_data_saved : list llama_token;
  n_past_saved : Z;
  ctx2 : option llama_context
}.

Definition set_n_past (v : Z) (fr : frame) : frame :=
  {| params := params fr; lparams := lparams fr; n_past := v;
     last_n_tokens_data := last_n_tokens_data fr; ctx := ctx fr;
     tokens := tokens fr; n_prompt_tokens := n_prompt_tokens fr;
     state_size := state_size fr; state_mem := state_mem fr;
     last_n_tokens_data_saved := last_n_tokens_data_saved fr;
     n_past_saved := n_past_saved fr; ctx2 := ctx2 fr |}.

Definition set_last_n_tokens_data (v : list llama_token) (fr : frame)
  : frame :=
  {| params := params fr; lparams := lparams fr; n_past := n_past fr;
     last_n_tokens_data := v; ctx := ctx fr;
     tokens := tokens fr; n_prompt_tokens := n_prompt_tokens fr;
     state_size := state_size fr; state_mem := state_mem fr;
     last_n_tokens_data_saved := last_n_tokens_data_saved fr;
     n_past_saved := n_past_saved fr; ctx2 := ctx2 fr |}.

Definition set_ctx (v : option llama_context) (fr : frame) : frame :=
  {| params := params fr; lparams := lparams fr; n_past := n_past fr;
     last_n_tokens_data := last_n_tokens_data fr; ctx := v;
     tokens := tokens fr; n_prompt_tokens := n_prompt_tokens fr;
     state_size := state_size fr; state_mem := state_mem fr;
     last_n_tokens_data_saved := last_n_tokens_data_saved fr;
     n_past_saved := n_past_saved fr; ctx2 := ctx2 fr |}.

Definition set_ctx2 (v : option llama_context) (fr : frame) : frame :=
  {| params := params fr; lparams := lparams fr; n_past := n_past fr;
     last_n_tokens_data := last_n_tokens_data fr; ctx := ctx fr;
     tokens := tokens fr; n_prompt_tokens := n_prompt_tokens fr;
     state_size := state_size fr; state_mem := state_mem fr;
     last_n_tokens_data_saved := last_n_tokens_data_saved fr;
     n_past_saved := n_past_saved fr; ctx2 := v |}.

Definition set_tokens (v : list llama_token) (n : Z) (fr : frame) : frame :=
  {| params := params fr; lparams := lparams fr; n_past := n_past fr;
     last_n_tokens_data := last_n_tokens_data fr; ctx := ctx fr;
     tokens := v; n_prompt_tokens := n;
     state_size := state_size fr; state_mem := state_mem fr;
     last_n_tokens_data_saved := last_n_tokens_data_saved fr;
     n_past_saved := n_past_saved fr; ctx2 := ctx2 fr |}.

Definition set_state_size (v : N) (fr : frame) : frame :=
  {| params := params fr; lparams := lparams fr; n_past := n_past fr;
     last_n_tokens_data := last_n_tokens_data fr; ctx := ctx fr;
     tokens := tokens fr; n_prompt_tokens := n_prompt_tokens fr;
     state_size := v; state_mem := state_mem fr;
     last_n_tokens_data_saved := last_n_tokens_data_saved fr;
     n_past_saved := n_past_saved fr; ctx2 := ctx2 fr |}.

Definition set_state_mem (v : list byte) (fr : frame) : frame :=
  {| params := params fr; lparams := lparams fr; n_past := n_past fr;
     last_n_tokens_data := last_n_tokens_data fr; ctx := ctx fr;
     tokens := tokens fr; n_prompt_tokens := n_prompt_tokens fr;
     state_size := state_size fr; state_mem := v;
     last_n_tokens_data_saved := last_n_tokens_data_saved fr;
     n_past_saved := n_past_saved fr; ctx2 := ctx2 fr |}.

Definition set_saved (h : list llama_token) (n : Z) (fr : frame) : frame :=
  {| params := params fr; lparams := lparams fr; n_past := n_past fr;
     last_n_tokens_data := last_n_tokens_data fr; ctx := ctx fr;
     tokens := tokens fr; n_prompt_tokens := n_prompt_tokens fr;
     state_size := state_size fr; state_mem := state_mem fr;
     last_n_tokens_data_saved := h;
     n_past_saved := n; ctx2 := ctx2 fr |}.

(** The handle a generation loop runs on: [ctx] or [ctx2]. *)
Definition handle_ctx (h : handle) (fr : frame) : option llama_context :=
  match h with
  | ctxA => ctx fr
  | ctxB => ctx2 fr
  end.

Definition set_handle_ctx (h : handle) (c : llama_context) (fr : frame)
  : frame :=
  match h with
  | ctxA => set_ctx (Some c) fr
  | ctxB => set_ctx2 (Some c) fr
  end.

(** ** The program *)

Definition set_n_predict (v : Z) (ps : gpt_params) : gpt_params :=
  {| seed := seed ps; n_threads := n_threads ps; n_predict := v;
     repeat_last_n := repeat_last_n ps; n_ctx := n_ctx ps;
     memory_f16 := memory_f16 ps; use_mmap := use_mmap ps;
     use_mlock := use_mlock ps; prompt := prompt ps; model := model ps |}.

(** Lines 13-17: the defaults of this example over those of common.h. *)
Definition initial_params : gpt_params :=
  let d := gpt_params_default in
  {| seed := 42; n_threads := 4; n_predict := n_predict d;
     repeat_last_n := 64; n_ctx := n_ctx d;
     memory_f16 := memory_f16 d; use_mmap := use_mmap d;
     use_mlock := use_mlock d; prompt := "The quick brown fox";
     model := model d |}.

Definition build_line : string :=
  ("main: build = " ++ BUILD_NUMBER ++ " (" ++ BUILD_COMMIT ++ ")" ++ nl)%string.

Definition msg_tokenize : string :=
  ("main : failed to tokenize prompt" ++ nl)%string.
Definition msg_evaluate : string :=
  (nl ++ "main : failed to evaluate" ++ nl)%string.
Definition msg_state_size : string :=
  (nl ++ "main : failed to validate state size" ++ nl)%string.
Definition msg_read_state : string :=
  (nl ++ "main : failed to read state" ++ nl)%string.

Definition state_file : string := "dump_state.bin".

(** Lines 27-30: a negative n_predict becomes 16. *)
Definition default_n_predict (ps : gpt_params) : gpt_params :=
  if n_predict ps <? 0 then set_n_predict 16 ps else ps.

(** Lines 12-30: parameters, command line, build line, default n_predict. *)
Definition init_params (argv : list string) : M gpt_params :=
  let '(ok, ps) := gpt_params_parse argv initial_params in
  if negb ok then stop (Exit 1)
  else
    emit (Stderr build_line) ;;;
    ret (default_n_predict ps).

(** Lines 32-38: the context parameters taken from the command line. *)
Definition context_params (ps : gpt_params) : llama_context_params :=
  {| lp_n_ctx := n_ctx ps; lp_seed := seed ps;
     lp_f16_kv := memory_f16 ps; lp_use_mmap := use_mmap ps;
     lp_use_mlock := use_mlock ps |}.

(** The locals once the first context exists (line 45). *)
Definition entry_frame (ps : gpt_params) (hist : list llama_token)
  (c : option llama_context) : frame :=
  {| params := ps; lparams := context_params ps; n_past := 0;
     last_n_tokens_data := hist; ctx := c;
     tokens := []; n_prompt_tokens := 0;
     state_size := 0%N; state_mem := [];
     last_n_tokens_data_saved := []; n_past_saved := 0;
     ctx2 := None |}.

(** Lines 12-45: up to the creation of the first context. *)
Definition setup (argv : list string) : M frame :=
  ps <- init_params argv ;;
  let lps := context_params ps in
  hist <- new_vector (repeat_last_n ps) 0 ;;
  c <- call_init_from_file ctxA (model ps) lps ;;
  ret (entry_frame ps hist c).

(** Lines 47-62: tokenize the prompt, evaluate it, record it.  The result
    of this [llama_eval] is not looked at.  [n_past] is 0 when [main] gets
    here (line 41), so line 62 cannot overflow. *)
Definition eval_prompt (fr : frame) : M frame :=
  buf <- new_vector (n_ctx (params fr)) 0 ;;
  c <- deref (ctx fr) ;;
  r <- call_tokenize c (prompt (params fr)) buf (Z.of_nat (length buf)) true ;;
  let fr := set_tokens (fst r) (snd r) fr in
  if n_prompt_tokens fr <? 1 then
    emit (Stderr msg_tokenize) ;;;
    stop (Exit 1)
  else
    let prompt_tokens := firstn (Z.to_nat (n_prompt_tokens fr)) (tokens fr) in
    e <- call_eval ctxA c prompt_tokens (n_past fr) (n_threads (params fr)) ;;
    let fr := set_ctx (Some (fst e)) fr in
    let fr :=
      set_last_n_tokens_data (last_n_tokens_data fr ++ prompt_tokens) fr in
    ret (set_n_past (n_past fr + n_prompt_tokens fr) fr).

(** Lines 64-74: capture the state and write it to the file.  The buffer
    has [state_size] bytes and [llama_copy_state_data] fills all of them
    ([llama_copy_state_data_length]); the results of [fopen], [fwrite] and
    [fclose] are not looked at. *)
Definition save_state (fr : frame) : M frame :=
  c <- deref (ctx fr) ;;
  n <- call_get_state_size ctxA c ;;
  let fr := set_state_size n fr in
  fp_write <- call_fopen state_file "wb" ;;
  mem <- call_copy_state_data ctxA c ;;
  let fr := set_state_mem mem fr in
  _ <- call_fwrite (state_mem fr) fp_write ;;
  call_fclose fp_write ;;;
  ret fr.

(** Lines 76-78: the copies of the token history and of the position.
    The copy constructor of [std::vector] copies the elements, so the copy
    is a local of its own, as is the copied [int]. *)
Definition checkpoint (fr : frame) : frame :=
  set_saved (last_n_tokens_data fr) (n_past fr) fr.

(** Lines 90-92 and 146-148: the loop that fills the candidate vector. *)
Definition push_candidate (logits : Z -> float) (token_id : Z)
  (candidates : list llama_token_data) : M (list llama_token_data) :=
  ret (candidates ++
       [{| id := token_id; logit := logits token_id; p := zero_f |}]).

(** Lines 84-93 and 142-149: the candidate array of one step. *)
Definition build_candidates (logits : Z -> float) (n_vocab : Z)
  : M llama_token_data_array :=
  candidates <- vector_reserve llama_token_data n_vocab ;;
  candidates <- for_range n_vocab (push_candidate logits) candidates ;;
  ret {| data := candidates; size := N.of_nat (length candidates);
         sorted := false |}.

(** Lines 83-106 and 141-159: one generation step on handle [h]. *)
Definition predict_step (h : handle) (i : Z) (fr : frame) : M frame :=
  c <- deref (handle_ctx h fr) ;;
  let logits := llama_get_logits c in
  let n_vocab := llama_n_vocab c in
  candidates_p <- build_candidates logits n_vocab ;;
  s <- call_sample_token h c candidates_p ;;
  let next_token := snd s in
  let next_token_str := llama_token_to_str (fst s) next_token in
  let fr :=
    set_last_n_tokens_data (last_n_tokens_data fr ++ [next_token]) fr in
  emit (Stdout next_token_str) ;;;
  e <- call_eval h (fst s) [next_token] (n_past fr) (n_threads (params fr)) ;;
  let fr := set_handle_ctx h (fst e) fr in
  if negb (snd e =? 0) then
    emit (Stderr msg_evaluate) ;;;
    stop (Exit 1)
  else
    n <- int_incr (n_past fr) ;;
    ret (set_n_past n fr).

(** Lines 82-107 and 140-160: the generation loop on handle [h]. *)
Definition predict (h : handle) (fr : frame) : M frame :=
  for_range (n_predict (params fr)) (predict_step h) fr.

(** Lines 80-109: the first prediction run. *)
Definition first_run (fr : frame) : M frame :=
  emit (Stdout (nl ++ prompt (params fr))%string) ;;;
  fr <- predict ctxA fr ;;
  emit (Stdout (nl ++ nl)%string) ;;;
  ret fr.

(** Lines 114-133: the second context and the state read back into it.
    A short read leaves the tail of the buffer as it was. *)
Definition load_state (fr : frame) : M frame :=
  c2 <- call_init_from_file ctxB (model (params fr)) (lparams fr) ;;
  let fr := set_ctx2 c2 fr in
  fp_read <- call_fopen state_file "rb" ;;
  c <- deref (ctx2 fr) ;;
  n <- call_get_state_size ctxB c ;;
  if negb (state_size fr =? n)%N then
    emit (Stderr msg_state_size) ;;;
    stop (Exit 1)
  else
    bytes <- call_fread (state_size fr) fp_read ;;
    let ret_ := N.of_nat (length bytes) in
    let fr :=
      set_state_mem (bytes ++ skipn (length bytes) (state_mem fr)) fr in
    if negb (ret_ =? state_size fr)%N then
      emit (Stderr msg_read_state) ;;;
      stop (Exit 1)
    else
      c <- call_set_state_data ctxB c (state_mem fr) ;;
      let fr := set_ctx2 (Some c) fr in
      call_fclose fp_read ;;;
      ret fr.

(** Lines 135-137: the history and the position go back to the copies. *)
Definition restore_tokens (fr : frame) : frame :=
  set_n_past (n_past_saved fr)
    (set_last_n_tokens_data (last_n_tokens_data_saved fr) fr).

(** Lines 12-78: everything before the first run. *)
Definition prologue (argv : list string) : M frame :=
  fr <- setup argv ;;
  fr <- eval_prompt fr ;;
  fr <- save_state fr ;;
  ret (checkpoint fr).

(** Lines 111-137: free the first context, reload, reset the history. *)
Definition reload (fr : frame) : M frame :=
  emit (Free ctxA) ;;;
  fr <- load_state fr ;;
  ret (restore_tokens fr).

(** Lines 139-162: the second prediction run. *)
Definition second_run (fr : frame) : M frame :=
  fr <- predict ctxB fr ;;
  emit (Stdout (nl ++ nl)%string) ;;;
  ret fr.

Definition main (argv : list string) : M Z :=
  fr <- prologue argv ;;
  fr <- first_run fr ;;
  fr <- reload fr ;;
  fr <- second_run fr ;;
  ret 0.

(** ** Reading a trace *)

(** The tokens sampled on handle [h], in order: S1 is [sampled ctxA],
    S2 is [sampled ctxB]. *)
Definition sampled (h : handle) (tr : list event) : list llama_token :=
  flat_map (fun e =>
    match e with
    | SampleToken h' _ t => if handle_eqb h h' then [t] else []
    | _ => []
    end) tr.

(** What was written to stderr, in order. *)
Definition stderr_of (tr : list event) : list string :=
  flat_map (fun e => match e with Stderr s => [s] | _ => [] end) tr.

(** The (n_tokens, n_past) of every [llama_eval] call, in order. *)
Definition evals_of (tr : list event) : list (Z * Z) :=
  flat_map (fun e =>
    match e with
    | Eval _ toks np _ _ => [(Z.of_nat (length toks), np)]
    | _ => []
    end) tr.

Definition is_sample (e : event) : Prop :=
  match e with SampleToken _ _ _ => True | _ => False end.
Definition is_set_state (e : event) : Prop :=
  match e with SetStateData _ _ => True | _ => False end.
Definition is_fread (e : event) : Prop :=
  match e with Fread _ _ => True | _ => False end.

(** The events each part of [main] can produce. *)
Definition prologue_event (e : event) : Prop :=
  match e with
  | Stderr _ | Tokenize _ _ _ | Fopen _ _ _ | Fwrite _ _ | Fclose => True
  | InitFromFile h _ | Eval h _ _ _ _ | GetStateSize h _
  | CopyStateData h _ => h = ctxA
  | _ => False
  end.

Definition run_event (h : handle) (e : event) : Prop :=
  match e with
  | Stdout _ | Stderr _ => True
  | SampleToken h' _ _ | Eval h' _ _ _ _ => h' = h
  | _ => False
  end.

Definition reload_event (e : event) : Prop :=
  match e with
  | Stderr _ | Fopen _ _ _ | Fread _ _ | Fclose => True
  | Free h => h = ctxA
  | InitFromFile h _ | GetStateSize h _ | SetStateData h _ => h = ctxB
  | _ => False
  end.

(** The candidate array lines 84-93 describe: one entry per vocabulary
    index, in order. *)
Definition candidate_array (logits : Z -> float) (n_vocab : Z)
  : llama_token_data_array :=
  let l := map (fun i => {| id := Z.of_nat i; logit := logits (Z.of_nat i);
                            p := zero_f |})
               (seq 0 (Z.to_nat n_vocab)) in
  {| data := l; size := N.of_nat (length l); sorted := false |}.

(** ** The frame at the program points the properties speak of *)

(** The frame after lines 47-62, given the tokenizer's buffer and count
    and the context after the prompt evaluation. *)
Definition prompt_frame (c1 : llama_context) (buf : list llama_token)
  (n : Z) (fr : frame) : frame :=
  set_n_past (n_past fr + n)
    (set_last_n_tokens_data
       (last_n_tokens_data fr ++ firstn (Z.to_nat n) buf)
       (set_ctx (Some c1) (set_tokens buf n fr))).

(** The frame at the checkpoint (line 78), given the parsed parameters,
    the first context, the tokenizer's result and the context after the
    prompt evaluation. *)
Definition checkpoint_frame (ps : gpt_params) (c : llama_context)
  (buf : list llama_token) (n : Z) (c1 : llama_context) : frame :=
  checkpoint
    (set_state_mem (llama_copy_state_data c1)
       (set_state_size (llama_get_state_size c1)
          (prompt_frame c1 buf n
             (entry_frame ps (repeat 0 (Z.to_nat (repeat_last_n ps)))
                (Some c))))).

(** The frame after a successful step that sampled [tok] and left the
    handle in state [c]. *)
Definition step_frame (h : handle) (tok : llama_token) (c : llama_context)
  (fr : frame) : frame :=
  set_n_past (n_past fr + 1)
    (set_handle_ctx h c
       (set_last_n_tokens_data (last_n_tokens_data fr ++ [tok]) fr)).

(** The frame after a successful load: the buffer as read and the second
    context after [llama_set_state_data]. *)
Definition loaded_frame (c : llama_context) (mem : list byte) (fr : frame)
  : frame :=
  set_ctx2 (Some (llama_set_state_data c mem)) (set_state_mem mem fr).

(** The locals a generation loop on [h] does not touch. *)
Definition frozen (h : handle) (fr fr' : frame) : Prop :=
  params fr' = params fr /\ lparams fr' = lparams fr /\
  tokens fr' = tokens fr /\ n_prompt_tokens fr' = n_prompt_tokens fr /\
  state_size fr' = state_size fr /\ state_mem fr' = state_mem fr /\
  last_n_tokens_data_saved fr' = last_n_tokens_data_saved fr /\
  n_past_saved fr' = n_past_saved fr /\
  match h with
  | ctxA => ctx2 fr' = ctx2 fr
  | ctxB => ctx fr' = ctx fr
  end.

(** Frames on which a run on [ctx] and a run on [ctx2] proceed alike. *)
Definition related (R : llama_context -> llama_context -> Prop)
  (frA frB : frame) : Prop :=
  (exists c c', ctx frA = Some c /\ ctx2 frB = Some c' /\ R c c') /\
  n_past frA = n_past frB /\ params frA = params frB.

(** Modelled from the spec: the Engine Handle is an external collaborator
    and its code is not part of this program.  Section 1 assumes that the
    engine "is deterministic given identical internal state and identical
    input token stream"; section 4.1 guarantees that after a successful
    restore the handle is "indistinguishable from a handle that had reached
    the same point through live evaluation".  [R c c'] reads: the handles
    [c] and [c'] are indistinguishable.  Indistinguishable handles have the
    same vocabulary and logits, sample the same token, evaluate alike and
    stay indistinguishable; and a handle restored from the state captured
    on [c], the sizes agreeing, is indistinguishable from [c]. *)
Record engine_contract (R : llama_context -> llama_context -> Prop)
  : Prop := {
  same_vocab : forall c c', R c c' -> llama_n_vocab c = llama_n_vocab c';
  same_logits : forall c c' i,
    R c c' -> 0 <= i < llama_n_vocab c ->
    llama_get_logits c i = llama_get_logits c' i;
  same_sample : forall c c' cands,
    R c c' ->
    snd (llama_sample_token c cands) = snd (llama_sample_token c' cands) /\
    R (fst (llama_sample_token c cands)) (fst (llama_sample_token c' cands));
  same_eval : forall c c' toks n_past n_thr,
    R c c' ->
    snd (llama_eval c toks n_past n_thr)
    = snd (llama_eval c' toks n_past n_thr) /\
    R (fst (llama_eval c toks n_past n_thr))
      (fst (llama_eval c' toks n_past n_thr));
  restore_capture : forall c c2,
    llama_get_state_size c2 = llama_get_state_size c ->
    R c (llama_set_state_data c2 (llama_copy_state_data c))
}.

(** Modelled from the spec: durable storage is an external collaborator.
    Section 4.1, Persist / Load: the raw byte buffer is written to and read
    from durable storage.  A file that was written, closed and opened again
    gives back, when as many bytes are read as were handed to the write,
    the bytes that were written. *)
Definition storage_contract : Prop :=
  forall fs bytes fs1 fp fs2 n fs3 fp' fs4 bytes',
    fopen fs state_file "wb" = (fs1, Some fp) ->
    fwrite fs1 fp bytes = (fs2, n) ->
    fopen (fclose fs2 fp) state_file "rb" = (fs3, Some fp') ->
    fread fs3 fp' (N.of_nat (length bytes)) = (fs4, bytes') ->
    length bytes' = length bytes ->
    bytes' = bytes.

(** The token batches handed to [llama_eval] on handle [h], in order. *)
Definition evaluated (h : handle) (tr : list event)
  : list (list llama_token) :=
  flat_map (fun e =>
    match e with
    | Eval h' toks _ _ _ => if handle_eqb h h' then [toks] else []
    | _ => []
    end) tr.

(** What was written to stdout, in order. *)
Definition stdout_of (tr : list event) : list string :=
  flat_map (fun e => match e with Stdout s => [s] | _ => [] end) tr.

(** The stdio calls of a trace, without their data. *)
Inductive file_op :=
| op_open (mode : string)
| op_write
| op_read
| op_close.

Definition file_ops (tr : list event) : list file_op :=
  flat_map (fun e =>
    match e with
    | Fopen _ mode _ => [op_open mode]
    | Fwrite _ _ => [op_write]
    | Fread _ _ => [op_read]
    | Fclose => [op_close]
    | _ => []
    end) tr.

(** The token history holds its [repeat_last_n] initial zeros and one
    entry per position evaluated. *)
Definition history_tracks_position (fr : frame) : Prop :=
  Z.of_nat (length (last_n_tokens_data fr))
  = repeat_last_n (params fr) + n_past fr.

(** The number of predictions [main] makes for a command line (line 28). *)
Definition effective_n_predict (argv : list string) : Z :=
  n_predict (default_n_predict (snd (gpt_params_parse argv initial_params))).

End Program.

Arguments Stdout {float} s.
Arguments Stderr {float} s.
Arguments InitFromFile {float} h ok.
Arguments Tokenize {float} text n_max ret.
Arguments Eval {float} h toks n_past n_thr ret.
Arguments GetStateSize {float} h n.
Arguments CopyStateData {float} h bytes.
Arguments SetStateData {float} h bytes.
Arguments Free {float} h.
Arguments Fopen {float} path mode ok.
Arguments Fwrite {float} bytes ret.
Arguments Fread {float} count ret.
Arguments Fclose {float}.
Arguments Stop {A} s.
Arguments llama_context {float LlamaLib}.
Arguments gpt_params_default {float LlamaLib}.
Arguments BUILD_NUMBER {float LlamaLib}.
Arguments BUILD_COMMIT {float LlamaLib}.
Arguments initial_params {float LL}.
Arguments eval_prompt {float LL IO} fr _.
Arguments prologue_event {float} e.
Arguments reload_event {float} e.
Arguments run_event {float} h e.
Arguments is_sample {float} e.
Arguments is_set_state {float} e.
Arguments is_fread {float} e.
Arguments build_line {float LL}.
Arguments ret {float IO A} a _.
Arguments stop {float IO A} s _.
Arguments M float {IO} A.

(** ** A small engine and a small storage, to run [main] on

    The engine keeps a cache of one byte per position and a one-byte
    generator state; its logits are integers.  The knobs of [config] select
    the behaviours that [main] has to cope with. *)
Module Toy.

Definition byte_of_Z (z : Z) : byte :=
  match Byte.of_N (Z.to_N (z mod 256)) with
  | Some b => b
  | None => x00
  end.

Definition Z_of_byte (b : byte) : Z := Z.of_N (Byte.to_N b).

Record config := {
  (* what the command line does to the parameters *)
  cli : gpt_params -> bool * gpt_params;
  (* llama_eval rejects a batch of more than n_batch tokens *)
  n_batch : Z;
  (* llama_set_state_data applies the buffer (or ignores it) *)
  restore_works : bool;
  (* the state size grows with the number of cells in use *)
  size_by_content : bool
}.

Record context := {
  cache : list byte;
  rng : byte;
  used : nat
}.

Definition defaults : gpt_params :=
  {| seed := -1; n_threads := 4; n_predict := -1; repeat_last_n := 64;
     n_ctx := 512; memory_f16 := true; use_mmap := true; use_mlock := false;
     prompt := ""; model := "models/7B/ggml-model.bin" |}.

Definition n_vocab : Z := 8.

Definition init (path : string) (lp : llama_context_params)
  : option context :=
  if String.eqb path "" then None
  else Some {| cache := repeat x00 (Z.to_nat (lp_n_ctx lp));
               rng := byte_of_Z (lp_seed lp); used := 0 |}.

Definition tokens_of (text : string) (add_bos : bool) : list llama_token :=
  (if add_bos then [1] else []) ++
  map (fun ch => Z.of_nat (nat_of_ascii ch) mod n_vocab)
      (list_ascii_of_string text).

Definition tokenize (c : context) (text : string) (buf : list llama_token)
  (n_max : Z) (add_bos : bool) : list llama_token * Z :=
  let toks := tokens_of text add_bos in
  let n := Z.of_nat (length toks) in
  if n_max <? n then (buf, - n)
  else (firstn (length buf) (toks ++ skipn (length toks) buf), n).

Definition eval (cfg : config) (c : context) (toks : list llama_token)
  (n_past n_thr : Z) : context * Z :=
  let n := Z.of_nat (length toks) in
  if (n_past <? 0) || (Z.of_nat (length (cache c)) <? n_past + n)
     || (n_batch cfg <? n)
  then (c, 1)
  else
    let k := Z.to_nat n_past in
    ({| cache := firstn k (cache c) ++ map byte_of_Z toks
                 ++ skipn (k + length toks) (cache c);
        rng := rng c;
        used := k + length toks |}, 0).

Definition state_bytes (cfg : config) (c : context) : list byte :=
  rng c :: (if size_by_content cfg then firstn (used c) (cache c)
            else cache c).

Definition set_state (cfg : config) (c : context) (src : list byte)
  : context :=
  if restore_works cfg then
    match src with
    | r :: cs => {| cache := cs; rng := r; used := used c |}
    | [] => c
    end
  else c.

Definition mix (c : context) : Z :=
  fold_right (fun b acc => (Z_of_byte b + 3 * acc) mod 1009) 7 (cache c)
  + Z_of_byte (rng c).

Definition logits (c : context) (i : Z) : Z :=
  (mix c * (i + 3) + i * i) mod 11.

(** Greedy choice: the first candidate with the largest logit. *)
Fixpoint argmax (best : llama_token_data Z) (l : list (llama_token_data Z))
  : llama_token :=
  match l with
  | [] => id best
  | d :: l' => argmax (if logit best <? logit d then d else best) l'
  end.

Definition sample (c : context) (cands : llama_token_data_array Z)
  : context * llama_token :=
  let t := match data cands with
           | [] => 0
           | d :: l => argmax d l
           end in
  ({| cache := cache c; rng := byte_of_Z (Z_of_byte (rng c) + 1);
      used := used c |}, t).

Definition token_to_str (c : context) (t : llama_token) : string :=
  String (ascii_of_nat (97 + Z.to_nat t)) EmptyString.

Lemma tokenize_buffer c s buf n_max b :
  length (fst (tokenize c s buf n_max b)) = length buf.
Proof.
  unfold tokenize. destruct (n_max <? _); simpl; [reflexivity|].
  rewrite length_firstn, length_app, length_skipn. lia.
Qed.

Lemma tokenize_bound c s buf n_max b :
  0 <= n_max -> snd (tokenize c s buf n_max b) <= n_max.
Proof.
  intros H. unfold tokenize.
  destruct (Z.ltb_spec n_max (Z.of_nat (length (tokens_of s b)))); simpl; lia.
Qed.

Definition lib (cfg : config) : LlamaLib Z :=
  {| llama_context := context;
     gpt_params_default := defaults;
     gpt_params_parse := fun _ ps => cli cfg ps;
     BUILD_NUMBER := "0";
     BUILD_COMMIT := "unknown";
     llama_init_from_file := init;
     llama_tokenize := tokenize;
     llama_eval := eval cfg;
     llama_get_state_size := fun c => N.of_nat (length (state_bytes cfg c));
     llama_copy_state_data := state_bytes cfg;
     llama_set_state_data := set_state cfg;
     llama_get_logits := logits;
     llama_n_vocab := fun _ => n_vocab;
     llama_sample_token := sample;
     llama_token_to_str := token_to_str;
     llama_copy_state_data_length := fun _ => eq_refl;
     llama_tokenize_buffer := tokenize_buffer;
     llama_tokenize_bound := tokenize_bound |}.

(** The storage holds the one file of [main]; its faults are fixed in
    advance: whether the file can be opened for writing or for reading and
    how many bytes a write can store. *)
Record disk := {
  file : option (list byte);
  can_write : bool;
  can_read : bool;
  room : nat
}.

Definition open (d : disk) (path mode : string) : disk * option unit :=
  if String.eqb mode "wb" then
    if can_write d then
      ({| file := Some []; can_write := can_write d;
          can_read := can_read d; room := room d |}, Some tt)
    else (d, None)
  else
    match file d with
    | Some _ => if can_read d then (d, Some tt) else (d, None)
    | None => (d, None)
    end.

Definition write (d : disk) (_ : unit) (bytes : list byte) : disk * N :=
  let stored := firstn (room d) bytes in
  ({| file := Some (match file d with Some old => old | None => [] end
                    ++ stored);
      can_write := can_write d; can_read := can_read d;
      room := room d - length stored |}, N.of_nat (length stored)).

Definition read (d : disk) (_ : unit) (count : N) : disk * list byte :=
  (d, firstn (N.to_nat count)
        (match file d with Some l => l | None => [] end)).

Definition stdio : Stdio :=
  {| FS := disk; FILE := unit; fopen := open; fwrite := write;
     fread := read; fclose := fun d _ => d |}.

Definition good_disk : disk :=
  {| file := None; can_write := true; can_read := true; room := 4096 |}.

(** A command line that sets the context length and the number of
    predictions. *)
Definition with_sizes (ctx_len n : Z) (ps : gpt_params)
  : bool * gpt_params :=
  (true,
   {| seed := seed ps; n_threads := n_threads ps; n_predict := n;
      repeat_last_n := repeat_last_n ps; n_ctx := ctx_len;
      memory_f16 := memory_f16 ps; use_mmap := use_mmap ps;
      use_mlock := use_mlock ps; prompt := prompt ps; model := model ps |}).

Definition good (ctx_len n : Z) : config :=
  {| cli := with_sizes ctx_len n; n_batch := 512;
     restore_works := true; size_by_content := false |}.

(** The configurations and disks of the concrete runs below. *)

(** [llama_set_state_data] ignores the buffer. *)
Definition broken : config :=
  {| cli := with_sizes 32 4; n_batch := 512;
     restore_works := false; size_by_content := false |}.

(** The state size depends on how much of the cache is in use. *)
Definition drift : config :=
  {| cli := with_sizes 32 4; n_batch := 512;
     restore_works := true; size_by_content := true |}.

(** [llama_eval] takes at most 4 tokens at a time. *)
Definition small_batch : config :=
  {| cli := with_sizes 32 2; n_batch := 4;
     restore_works := true; size_by_content := false |}.



(** Room for 10 bytes only. *)
Definition full_disk : disk :=
  {| file := None; can_write := true; can_read := true; room := 10 |}.

(** The file cannot be opened for writing. *)
Definition readonly_disk : disk :=
  {| file := None; can_write := false; can_read := true; room := 4096 |}.

Definition run (cfg : config) (d : disk) : result Z * disk * list (event Z) :=
  @main Z 0 (lib cfg) stdio [] d.

Definition outcome (cfg : config) (d : disk) : result Z :=
  fst (fst (run cfg d)).
Definition disk_after (cfg : config) (d : disk) : disk :=
  snd (fst (run cfg d)).
Definition trace (cfg : config) (d : disk) : list (event Z) :=
  snd (run cfg d).

(** The buffer handed to [llama_set_state_data], if the run got there. *)
Definition restored (cfg : config) (d : disk) : list byte :=
  hd [] (flat_map (fun e => match e with
                            | SetStateData _ b => [b]
                            | _ => []
                            end) (trace cfg d)).

(** The frame a part of [main] returned (a placeholder if it stopped). *)
Definition frame_of (cfg : config)
  (x : result (@frame Z (lib cfg)) * disk * list (event Z))
  : @frame Z (lib cfg) :=
  match x with
  | (Ret fr, _, _) => fr
  | _ => @entry_frame Z (lib cfg) defaults [] None
  end.

Arguments frame_of cfg x : clear implicits.

(** The frames, storages and traces of the parts of one run. *)
Definition run0 (cfg : config) (d : disk) :=
  @prologue Z (lib cfg) stdio [] d.
Definition run1 (cfg : config) (d : disk) :=
  @first_run Z 0 (lib cfg) stdio (frame_of cfg (run0 cfg d))
    (snd (fst (run0 cfg d))).
Definition run2 (cfg : config) (d : disk) :=
  @reload Z (lib cfg) stdio (frame_of cfg (run1 cfg d))
    (snd (fst (run1 cfg d))).
Definition run3 (cfg : config) (d : disk) :=
  @second_run Z 0 (lib cfg) stdio (frame_of cfg (run2 cfg d))
    (snd (fst (run2 cfg d))).

(** Lines 12-62 of one run. *)
Definition run_prompt (cfg : config) (d : disk) :=
  bind (@setup Z (lib cfg) stdio []) (@eval_prompt Z (lib cfg) stdio) d.

(** A context that has evaluated nothing. *)
Definition fresh : context := {| cache := []; rng := x00; used := 0 |}.

End Toy.

(** * Properties of the program *)

Section Properties.

Variable float : Type.
Variable zero_f : float.
Context {LL : LlamaLib float} {IO : Stdio}.

Local Abbreviation event := (event float).
Local Abbreviation M := (M float).
Local Abbreviation frame := (@frame float LL).

(** ** The monad *)

Lemma bind_inv {A B} (m : M A) (f : A -> M B) fs r fs' t :
  bind m f fs = (r, fs', t) ->
  (exists s, m fs = (Stop s, fs', t) /\ r = Stop s) \/
  (exists a fs1 t1 t2,
      m fs = (Ret a, fs1, t1) /\ f a fs1 = (r, fs', t2) /\ t = t1 ++ t2).
Proof.
  unfold bind. destruct (m fs) as [[[a|s] fs1] t1].
  - destruct (f a fs1) as [[r2 fs2] t2] eqn:E. intros H.
    injection H as <- <- <-. right. eauto 10.
  - intros H. injection H as <- <- <-. left. eauto.
Qed.

(** ** The candidate loop *)

Lemma push_loop logits fuel : forall i acc fs,
  for_loop fuel (Z.of_nat i) (push_candidate zero_f logits) acc fs =
  (Ret (acc ++ map (fun j => {| id := Z.of_nat j;
                                logit := logits (Z.of_nat j);
                                p := zero_f |}) (seq i fuel)), fs, []).
Proof.
  induction fuel as [|k IH]; intros i acc fs; simpl.
  - rewrite app_nil_r. reflexivity.
  - unfold bind at 1. unfold push_candidate at 1. unfold ret at 1.
    replace (Z.of_nat i + 1) with (Z.of_nat (S i)) by lia.
    rewrite IH. rewrite <- app_assoc. reflexivity.
Qed.

Lemma build_candidates_run logits n fs :
  0 <= n ->
  build_candidates zero_f logits n fs =
  (Ret (candidate_array zero_f logits n), fs, []).
Proof.
  intros Hn. unfold build_candidates, vector_reserve, for_range.
  destruct (Z.ltb_spec n 0); [lia|].
  unfold bind at 1. unfold ret at 1.
  unfold bind at 1.
  pose proof (push_loop logits (Z.to_nat n) 0 [] fs) as H0.
  change (Z.of_nat 0) with 0 in H0. rewrite H0.
  reflexivity.
Qed.

Lemma build_candidates_throw logits n fs :
  n < 0 -> build_candidates zero_f logits n fs = (Stop Abort, fs, []).
Proof.
  intros Hn. unfold build_candidates, vector_reserve.
  destruct (Z.ltb_spec n 0); [reflexivity|lia].
Qed.

(** ** The straight-line parts of [main], by cases, with their traces *)

Lemma setup_eq argv fs :
  setup argv fs =
  let ps0 := snd (gpt_params_parse argv initial_params) in
  if negb (fst (gpt_params_parse argv initial_params)) then
    (Stop (Exit 1), fs, [])
  else
    let ps := default_n_predict ps0 in
    if repeat_last_n ps <? 0 then (Stop Abort, fs, [Stderr build_line])
    else
      let c := llama_init_from_file (model ps) (context_params ps) in
      (Ret (entry_frame ps (repeat 0 (Z.to_nat (repeat_last_n ps))) c), fs,
       [Stderr build_line; InitFromFile ctxA (non_null c)]).
Proof.
  unfold setup, init_params.
  destruct (gpt_params_parse argv initial_params) as [ok ps0]. simpl.
  destruct ok; simpl; [|reflexivity].
  unfold new_vector, call_init_from_file, bind, emit, ret, stop. simpl.
  destruct (repeat_last_n (default_n_predict ps0) <? 0); reflexivity.
Qed.

Lemma eval_prompt_eq fr fs :
  eval_prompt fr fs =
  if n_ctx (params fr) <? 0 then (Stop Abort, fs, [])
  else
    match ctx fr with
    | None => (Stop Crash, fs, [])
    | Some c =>
        let buf := repeat 0 (Z.to_nat (n_ctx (params fr))) in
        let r := llama_tokenize c (prompt (params fr)) buf
                   (Z.of_nat (length buf)) true in
        let t := [Tokenize (prompt (params fr)) (Z.of_nat (length buf))
                    (snd r)] in
        if snd r <? 1 then (Stop (Exit 1), fs, t ++ [Stderr msg_tokenize])
        else
          let toks := firstn (Z.to_nat (snd r)) (fst r) in
          let e := llama_eval c toks (n_past fr) (n_threads (params fr)) in
          (Ret (prompt_frame (fst e) (fst r) (snd r) fr), fs,
           t ++ [Eval ctxA toks (n_past fr) (n_threads (params fr)) (snd e)])
    end.
Proof.
  unfold eval_prompt, new_vector.
  destruct (n_ctx (params fr) <? 0); [reflexivity|].
  unfold bind at 1. unfold ret at 1.
  destruct (ctx fr) as [c|]; [|reflexivity].
  unfold deref, call_tokenize, call_eval, bind, emit, ret, stop. simpl.
  destruct (snd (llama_tokenize _ _ _ _ _) <? 1); reflexivity.
Qed.

Lemma save_state_eq fr fs :
  save_state fr fs =
  match ctx fr with
  | None => (Stop Crash, fs, [])
  | Some c =>
      let sz := llama_get_state_size c in
      let o := fopen fs state_file "wb" in
      let mem := llama_copy_state_data c in
      let t := [GetStateSize ctxA sz;
                Fopen state_file "wb" (non_null (snd o));
                CopyStateData ctxA mem] in
      match snd o with
      | None => (Stop Crash, fst o, t)
      | Some f =>
          let w := fwrite (fst o) f mem in
          (Ret (set_state_mem mem (set_state_size sz fr)),
           fclose (fst w) f, t ++ [Fwrite mem (snd w); Fclose])
      end
  end.
Proof.
  unfold save_state.
  destruct (ctx fr) as [c|]; [|reflexivity].
  unfold deref, call_get_state_size, call_fopen, call_copy_state_data,
    bind, emit, ret, stop. simpl.
  destruct (fopen fs state_file "wb") as [fs1 [f|]]; simpl; [|reflexivity].
  destruct (fwrite fs1 f (llama_copy_state_data c)) as [fs2 n]. reflexivity.
Qed.

Lemma load_state_eq fr fs :
  load_state fr fs =
  let c0 := llama_init_from_file (model (params fr)) (lparams fr) in
  let o := fopen fs state_file "rb" in
  let t := [InitFromFile ctxB (non_null c0);
            Fopen state_file "rb" (non_null (snd o))] in
  match c0 with
  | None => (Stop Crash, fst o, t)
  | Some c =>
      let n := llama_get_state_size c in
      if negb (state_size fr =? n)%N then
        (Stop (Exit 1), fst o, t ++ [GetStateSize ctxB n; Stderr msg_state_size])
      else
        match snd o with
        | None => (Stop Crash, fst o, t ++ [GetStateSize ctxB n])
        | Some f =>
            let rd := fread (fst o) f (state_size fr) in
            let bytes := snd rd in
            let mem := bytes ++ skipn (length bytes) (state_mem fr) in
            let t2 := t ++ [GetStateSize ctxB n;
                            Fread (state_size fr) (N.of_nat (length bytes))] in
            if negb (N.of_nat (length bytes) =? state_size fr)%N then
              (Stop (Exit 1), fst rd, t2 ++ [Stderr msg_read_state])
            else
              (Ret (loaded_frame c mem fr), fclose (fst rd) f,
               t2 ++ [SetStateData ctxB mem; Fclose])
        end
  end.
Proof.
  unfold load_state, call_init_from_file, call_fopen, call_get_state_size,
    call_fread, call_set_state_data, call_fclose, deref, bind, emit, ret, stop.
  simpl.
  destruct (fopen fs state_file "rb") as [fs1 fp]. simpl.
  destruct (llama_init_from_file _ _) as [c|]; simpl; [|reflexivity].
  destruct (negb (state_size fr =? llama_get_state_size c)%N);
    [reflexivity|].
  destruct fp as [f|]; simpl; [|reflexivity].
  destruct (fread fs1 f (state_size fr)) as [fs2 bytes]. simpl.
  destruct (negb (N.of_nat (length bytes) =? state_size fr)%N); reflexivity.
Qed.

(** Lines 12-78 as one decision tree. *)
Lemma prologue_eq argv fs :
  prologue argv fs =
  let pr := gpt_params_parse argv initial_params in
  if negb (fst pr) then (Stop (Exit 1), fs, [])
  else
    let ps := default_n_predict (snd pr) in
    if repeat_last_n ps <? 0 then (Stop Abort, fs, [Stderr build_line])
    else
      let c0 := llama_init_from_file (model ps) (context_params ps) in
      let t1 := [Stderr build_line; InitFromFile ctxA (non_null c0)] in
      if n_ctx ps <? 0 then (Stop Abort, fs, t1)
      else
        match c0 with
        | None => (Stop Crash, fs, t1)
        | Some c =>
            let buf := repeat 0 (Z.to_nat (n_ctx ps)) in
            let r := llama_tokenize c (prompt ps) buf
                       (Z.of_nat (length buf)) true in
            let t2 := t1 ++ [Tokenize (prompt ps) (Z.of_nat (length buf))
                               (snd r)] in
            if snd r <? 1 then
              (Stop (Exit 1), fs, t2 ++ [Stderr msg_tokenize])
            else
              let toks := firstn (Z.to_nat (snd r)) (fst r) in
              let e := llama_eval c toks 0 (n_threads ps) in
              let o := fopen fs state_file "wb" in
              let mem := llama_copy_state_data (fst e) in
              let t3 := t2 ++
                [Eval ctxA toks 0 (n_threads ps) (snd e);
                 GetStateSize ctxA (llama_get_state_size (fst e));
                 Fopen state_file "wb" (non_null (snd o));
                 CopyStateData ctxA mem] in
              match snd o with
              | None => (Stop Crash, fst o, t3)
              | Some f =>
                  let w := fwrite (fst o) f mem in
                  (Ret (checkpoint_frame ps c (fst r) (snd r) (fst e)),
                   fclose (fst w) f, t3 ++ [Fwrite mem (snd w); Fclose])
              end
        end.
Proof.
  unfold prologue. unfold bind at 1. rewrite setup_eq. cbv zeta.
  destruct (negb (fst (gpt_params_parse argv initial_params)));
    [reflexivity|].
  set (ps := default_n_predict (snd (gpt_params_parse argv initial_params))).
  destruct (repeat_last_n ps <? 0); [reflexivity|].
  unfold bind at 1. rewrite eval_prompt_eq. simpl.
  destruct (n_ctx ps <? 0); [reflexivity|].
  destruct (llama_init_from_file (model ps) (context_params ps)) as [c|];
    [|reflexivity].
  simpl. destruct (snd (llama_tokenize _ _ _ _ _) <? 1); [reflexivity|].
  unfold bind at 1. rewrite save_state_eq. simpl.
  destruct (fopen fs state_file "wb") as [fs1 [f|]]; reflexivity.
Qed.

(** Lines 12-62 as one decision tree. *)
Lemma through_prompt_eq argv fs :
  bind (setup argv) eval_prompt fs =
  let pr := gpt_params_parse argv initial_params in
  if negb (fst pr) then (Stop (Exit 1), fs, [])
  else
    let ps := default_n_predict (snd pr) in
    if repeat_last_n ps <? 0 then (Stop Abort, fs, [Stderr build_line])
    else
      let c0 := llama_init_from_file (model ps) (context_params ps) in
      let t1 := [Stderr build_line; InitFromFile ctxA (non_null c0)] in
      if n_ctx ps <? 0 then (Stop Abort, fs, t1)
      else
        match c0 with
        | None => (Stop Crash, fs, t1)
        | Some c =>
            let buf := repeat 0 (Z.to_nat (n_ctx ps)) in
            let r := llama_tokenize c (prompt ps) buf
                       (Z.of_nat (length buf)) true in
            let t2 := t1 ++ [Tokenize (prompt ps) (Z.of_nat (length buf))
                               (snd r)] in
            if snd r <? 1 then
              (Stop (Exit 1), fs, t2 ++ [Stderr msg_tokenize])
            else
              let toks := firstn (Z.to_nat (snd r)) (fst r) in
              let e := llama_eval c toks 0 (n_threads ps) in
              (Ret (prompt_frame (fst e) (fst r) (snd r)
                      (entry_frame ps
                         (repeat 0 (Z.to_nat (repeat_last_n ps))) (Some c))),
               fs, t2 ++ [Eval ctxA toks 0 (n_threads ps) (snd e)])
        end.
Proof.
  unfold bind at 1. rewrite setup_eq. cbv zeta.
  destruct (negb (fst (gpt_params_parse argv initial_params)));
    [reflexivity|].
  set (ps := default_n_predict (snd (gpt_params_parse argv initial_params))).
  destruct (repeat_last_n ps <? 0); [reflexivity|].
  rewrite eval_prompt_eq. simpl.
  destruct (n_ctx ps <? 0); [reflexivity|].
  destruct (llama_init_from_file (model ps) (context_params ps)) as [c|];
    [|reflexivity].
  simpl. destruct (snd (llama_tokenize _ _ _ _ _) <? 1); reflexivity.
Qed.

(** Lines 111-137 by cases. *)
Lemma reload_eq fr fs :
  reload fr fs =
  match load_state fr fs with
  | (Ret fr2, fs2, t2) => (Ret (restore_tokens fr2), fs2, Free ctxA :: t2)
  | (Stop s, fs2, t2) => (Stop s, fs2, Free ctxA :: t2)
  end.
Proof.
  unfold reload, bind, emit, ret.
  destruct (load_state fr fs) as [[[fr2|s] fs2] t2]; simpl;
    rewrite ?app_nil_r; reflexivity.
Qed.

Lemma first_run_eq fr fs :
  first_run zero_f fr fs =
  match predict zero_f ctxA fr fs with
  | (Ret fr1, fs1, t1) =>
      (Ret fr1, fs1,
       Stdout (nl ++ prompt (params fr))%string :: t1
       ++ [Stdout (nl ++ nl)%string])
  | (Stop s, fs1, t1) =>
      (Stop s, fs1, Stdout (nl ++ prompt (params fr))%string :: t1)
  end.
Proof.
  unfold first_run, bind, emit, ret.
  destruct (predict zero_f ctxA fr fs) as [[[fr1|s] fs1] t1]; reflexivity.
Qed.

Lemma second_run_eq fr fs :
  second_run zero_f fr fs =
  match predict zero_f ctxB fr fs with
  | (Ret fr1, fs1, t1) => (Ret fr1, fs1, t1 ++ [Stdout (nl ++ nl)%string])
  | (Stop s, fs1, t1) => (Stop s, fs1, t1)
  end.
Proof.
  unfold second_run, bind, emit, ret.
  destruct (predict zero_f ctxB fr fs) as [[[fr1|s] fs1] t1]; reflexivity.
Qed.

(** [main] as the sequence of its four parts. *)
Lemma main_eq argv fs :
  main zero_f argv fs =
  match prologue argv fs with
  | (Stop s, fs0, t0) => (Stop s, fs0, t0)
  | (Ret fr0, fs0, t0) =>
      match first_run zero_f fr0 fs0 with
      | (Stop s, fs1, t1) => (Stop s, fs1, t0 ++ t1)
      | (Ret fr1, fs1, t1) =>
          match reload fr1 fs1 with
          | (Stop s, fs2, t2) => (Stop s, fs2, t0 ++ t1 ++ t2)
          | (Ret fr2, fs2, t2) =>
              match second_run zero_f fr2 fs2 with
              | (Stop s, fs3, t3) => (Stop s, fs3, t0 ++ t1 ++ t2 ++ t3)
              | (Ret fr3, fs3, t3) => (Ret 0, fs3, t0 ++ t1 ++ t2 ++ t3)
              end
          end
      end
  end.
Proof.
  unfold main, bind, ret.
  destruct (prologue argv fs) as [[[fr0|s] fs0] t0]; [|reflexivity].
  destruct (first_run zero_f fr0 fs0) as [[[fr1|s] fs1] t1]; [|reflexivity].
  destruct (reload fr1 fs1) as [[[fr2|s] fs2] t2]; [|reflexivity].
  destruct (second_run zero_f fr2 fs2) as [[[fr3|s] fs3] t3];
    rewrite ?app_nil_r; reflexivity.
Qed.

(** ** One generation step *)

(** [predict_step] by cases, with its trace written out. *)
Lemma predict_step_eq h i fr fs :
  predict_step zero_f h i fr fs =
  match handle_ctx h fr with
  | None => (Stop Crash, fs, [])
  | Some c =>
      if llama_n_vocab c <? 0 then (Stop Abort, fs, [])
      else
        let cands :=
          candidate_array zero_f (llama_get_logits c) (llama_n_vocab c) in
        let s := llama_sample_token c cands in
        let e := llama_eval (fst s) [snd s] (n_past fr)
                   (n_threads (params fr)) in
        let t := [SampleToken h cands (snd s);
                  Stdout (llama_token_to_str (fst s) (snd s));
                  Eval h [snd s] (n_past fr) (n_threads (params fr)) (snd e)]
        in
        if negb (snd e =? 0) then
          (Stop (Exit 1), fs, t ++ [Stderr msg_evaluate])
        else if INT_MAX <? n_past fr + 1 then (Stop Crash, fs, t)
        else (Ret (step_frame h (snd s) (fst e) fr), fs, t)
  end.
Proof.
  unfold predict_step.
  destruct (handle_ctx h fr) as [c|]; [|reflexivity].
  unfold deref. unfold bind at 1. unfold ret at 1.
  destruct (Z.ltb_spec (llama_n_vocab c) 0) as [Hn|Hn].
  - unfold bind at 1. rewrite build_candidates_throw by assumption.
    reflexivity.
  - unfold bind at 1. rewrite build_candidates_run by assumption.
    cbv zeta. unfold call_sample_token, call_eval, int_incr, bind, emit, ret,
      stop.
    destruct h; simpl;
      destruct (negb _); simpl; try reflexivity;
      destruct (INT_MAX <? _); reflexivity.
Qed.

(** Case analysis of a run of [predict_step] given as a hypothesis. *)
Ltac step_cases H :=
  rewrite predict_step_eq in H;
  let c := fresh "c" in
  let Hc := fresh "Hc" in
  let Hv := fresh "Hv" in
  let He := fresh "He" in
  let Ho := fresh "Ho" in
  destruct (handle_ctx _ _) as [c|] eqn:Hc;
  [ destruct (llama_n_vocab c <? 0) eqn:Hv;
    [ | cbv zeta in H;
        destruct (negb _) eqn:He;
        [ | destruct (INT_MAX <? _) eqn:Ho ] ]
  | ];
  try discriminate H;
  injection H as <- <- <-.

Lemma frozen_refl h fr : frozen h fr fr.
Proof. unfold frozen. destruct h; repeat split; reflexivity. Qed.

Lemma frozen_step h tok c fr fr' :
  frozen h (step_frame h tok c fr) fr' -> frozen h fr fr'.
Proof. unfold frozen. destruct h; simpl; tauto. Qed.

Lemma sampled_app h (t1 t2 : list event) :
  sampled h (t1 ++ t2) = sampled h t1 ++ sampled h t2.
Proof. unfold sampled. apply flat_map_app. Qed.

Lemma evals_of_app (t1 t2 : list event) :
  evals_of (t1 ++ t2) = evals_of t1 ++ evals_of t2.
Proof. unfold evals_of. apply flat_map_app. Qed.

Lemma stderr_of_app (t1 t2 : list event) :
  stderr_of (t1 ++ t2) = stderr_of t1 ++ stderr_of t2.
Proof. unfold stderr_of. apply flat_map_app. Qed.

Lemma handle_eqb_refl h : handle_eqb h h = true.
Proof. destruct h; reflexivity. Qed.

(** ** The generation loop *)

(** Whatever the outcome: the storage is untouched and the loop only
    samples, prints and evaluates on its own handle. *)
Lemma loop_any h fuel : forall i fr fs r fs' t,
  for_loop fuel i (predict_step zero_f h) fr fs = (r, fs', t) ->
  fs' = fs /\ Forall (run_event h) t.
Proof.
  induction fuel as [|k IH]; intros i fr fs r fs' t H; simpl in H.
  - injection H as <- <- <-. split; [reflexivity|constructor].
  - apply bind_inv in H.
    destruct H as [(s & H & ->)|(a & fs1 & t1 & t2 & H & H2 & ->)].
    + step_cases H; (split; [reflexivity|]);
        repeat constructor.
    + apply IH in H2. destruct H2 as [-> H2].
      step_cases H. split; [reflexivity|].
      apply Forall_app. split; [|assumption]. repeat constructor.
Qed.

(** A loop that returns made [fuel] steps, each appending one token and
    advancing the position by one. *)
Lemma loop_ret h fuel : forall i fr fs fr' fs' t,
  for_loop fuel i (predict_step zero_f h) fr fs = (Ret fr', fs', t) ->
  frozen h fr fr' /\
  last_n_tokens_data fr' = last_n_tokens_data fr ++ sampled h t /\
  n_past fr' = n_past fr + Z.of_nat fuel /\
  length (sampled h t) = fuel /\
  evals_of t = map (fun k => (1, n_past fr + Z.of_nat k)) (seq 0 fuel) /\
  stderr_of t = [].
Proof.
  induction fuel as [|k IH]; intros i fr fs fr' fs' t H; simpl in H.
  - injection H as <- <- <-. simpl. rewrite app_nil_r, Z.add_0_r.
    repeat split; try reflexivity; try apply frozen_refl.
  - apply bind_inv in H.
    destruct H as [(s & H & Hs)|(a & fs1 & t1 & t2 & H & H2 & ->)];
      [discriminate|].
    step_cases H. apply IH in H2.
    destruct H2 as (Hf & Hl & Hn & Hlen & Hev & Herr).
    rewrite !sampled_app, !evals_of_app, !stderr_of_app.
    split; [eapply frozen_step; eassumption|].
    split.
    { rewrite Hl. simpl. rewrite handle_eqb_refl. simpl.
      destruct h; simpl; rewrite <- app_assoc; reflexivity. }
    split.
    { rewrite Hn. destruct h; simpl; lia. }
    split.
    { simpl. rewrite handle_eqb_refl. simpl. rewrite Hlen. reflexivity. }
    split.
    { rewrite Hev. simpl. rewrite Z.add_0_r. f_equal.
      rewrite <- seq_shift, map_map. apply map_ext. intros a.
      destruct h; simpl; f_equal; lia. }
    rewrite Herr. reflexivity.
Qed.

(** ** Facts about the parts of [main] *)

Lemma predict_any h fr fs r fs' t :
  predict zero_f h fr fs = (r, fs', t) ->
  fs' = fs /\ Forall (run_event h) t.
Proof. unfold predict, for_range. apply loop_any. Qed.

Lemma first_run_any fr fs r fs' t :
  first_run zero_f fr fs = (r, fs', t) ->
  fs' = fs /\ Forall (run_event ctxA) t.
Proof.
  rewrite first_run_eq.
  destruct (predict zero_f ctxA fr fs) as [[[fr1|s] fs1] t1] eqn:E;
    apply predict_any in E; destruct E as [-> E];
    intros H; injection H as <- <- <-; (split; [reflexivity|]).
  - constructor; [exact I|]. apply Forall_app. split; [assumption|].
    repeat constructor.
  - constructor; [exact I|assumption].
Qed.

Lemma second_run_any fr fs r fs' t :
  second_run zero_f fr fs = (r, fs', t) ->
  fs' = fs /\ Forall (run_event ctxB) t.
Proof.
  rewrite second_run_eq.
  destruct (predict zero_f ctxB fr fs) as [[[fr1|s] fs1] t1] eqn:E;
    apply predict_any in E; destruct E as [-> E];
    intros H; injection H as <- <- <-; (split; [reflexivity|]).
  - apply Forall_app. split; [assumption|]. repeat constructor.
  - assumption.
Qed.

(** Case analysis of a run of [prologue] given as a hypothesis. *)
Ltac prologue_cases H :=
  match type of H with
  | prologue ?argv ?fs = _ =>
      rewrite prologue_eq in H; cbv zeta in H;
      let Hparse := fresh "Hparse" in
      let Hrep := fresh "Hrep" in
      let Hnctx := fresh "Hnctx" in
      let c := fresh "c" in
      let Hinit := fresh "Hinit" in
      let Htok := fresh "Htok" in
      let fsw := fresh "fsw" in
      let fp := fresh "fp" in
      let Hopen := fresh "Hopen" in
      let ps :=
        constr:(default_n_predict (snd (gpt_params_parse argv initial_params)))
      in
      destruct (negb (fst (gpt_params_parse argv initial_params)))
        eqn:Hparse;
      [ | destruct (repeat_last_n ps <? 0) eqn:Hrep;
          [ | destruct (n_ctx ps <? 0) eqn:Hnctx;
              [ | destruct (llama_init_from_file (model ps)
                              (context_params ps)) as [c|] eqn:Hinit;
                  [ destruct (snd (llama_tokenize c _ _ _ _) <? 1) eqn:Htok;
                    [ | destruct (fopen fs state_file "wb") as [fsw [fp|]]
                          eqn:Hopen; cbn [fst snd] in H ]
                  | ] ] ] ];
      try discriminate H;
      injection H as <- <- <-
  end.

Lemma prologue_events argv fs r fs' t :
  prologue argv fs = (r, fs', t) -> Forall prologue_event t.
Proof.
  intros H. prologue_cases H; simpl; repeat constructor.
Qed.

(** Case analysis of a run of [load_state] given as a hypothesis. *)
Ltac load_cases H :=
  match type of H with
  | load_state ?fr ?fs = _ =>
      rewrite load_state_eq in H; cbv zeta in H;
      let c := fresh "c" in
      let Hinit := fresh "Hinit" in
      let Hsize := fresh "Hsize" in
      let fsr := fresh "fsr" in
      let fp := fresh "fp" in
      let Hopen := fresh "Hopen" in
      let fsd := fresh "fsd" in
      let bytes := fresh "bytes" in
      let Hread := fresh "Hread" in
      let Hlen := fresh "Hlen" in
      destruct (fopen fs state_file "rb") as [fsr fp] eqn:Hopen;
      cbn [fst snd] in H;
      destruct (llama_init_from_file (model (params fr)) (lparams fr))
        as [c|] eqn:Hinit;
      [ destruct (negb (state_size fr =? llama_get_state_size c)%N)
          eqn:Hsize;
        [ | destruct fp as [fp|];
            [ destruct (fread fsr fp (state_size fr)) as [fsd bytes]
                eqn:Hread;
              cbn [fst snd] in H;
              destruct (negb (N.of_nat (length bytes) =? state_size fr)%N)
                eqn:Hlen
            | ] ]
      | ];
      try discriminate H;
      injection H as <- <- <-
  end.

Lemma load_state_events fr fs r fs' t :
  load_state fr fs = (r, fs', t) -> Forall reload_event t.
Proof.
  intros H. load_cases H; simpl; repeat constructor.
Qed.

Lemma reload_events fr fs r fs' t :
  reload fr fs = (r, fs', t) -> Forall reload_event t.
Proof.
  rewrite reload_eq.
  destruct (load_state fr fs) as [[[fr2|s] fs2] t2] eqn:E;
    apply load_state_events in E;
    intros H; injection H as <- <- <-; constructor;
    solve [reflexivity | assumption].
Qed.

Lemma predict_ret h fr fs fr' fs' t :
  predict zero_f h fr fs = (Ret fr', fs', t) ->
  frozen h fr fr' /\
  last_n_tokens_data fr' = last_n_tokens_data fr ++ sampled h t /\
  n_past fr' = n_past fr + Z.of_nat (Z.to_nat (n_predict (params fr))) /\
  length (sampled h t) = Z.to_nat (n_predict (params fr)) /\
  evals_of t = map (fun k => (1, n_past fr + Z.of_nat k))
                   (seq 0 (Z.to_nat (n_predict (params fr)))) /\
  stderr_of t = [].
Proof. unfold predict, for_range. apply loop_ret. Qed.

Lemma first_run_ret fr fs fr' fs' t :
  first_run zero_f fr fs = (Ret fr', fs', t) ->
  exists t1,
    predict zero_f ctxA fr fs = (Ret fr', fs', t1) /\
    t = Stdout (nl ++ prompt (params fr))%string :: t1
        ++ [Stdout (nl ++ nl)%string].
Proof.
  rewrite first_run_eq.
  destruct (predict zero_f ctxA fr fs) as [[[fr1|s] fs1] t1];
    [|discriminate].
  intros H; injection H as <- <- <-. eauto.
Qed.

Lemma second_run_ret fr fs fr' fs' t :
  second_run zero_f fr fs = (Ret fr', fs', t) ->
  exists t1,
    predict zero_f ctxB fr fs = (Ret fr', fs', t1) /\
    t = t1 ++ [Stdout (nl ++ nl)%string].
Proof.
  rewrite second_run_eq.
  destruct (predict zero_f ctxB fr fs) as [[[fr1|s] fs1] t1];
    [|discriminate].
  intros H; injection H as <- <- <-. eauto.
Qed.

Lemma first_run_frozen fr fs fr' fs' t :
  first_run zero_f fr fs = (Ret fr', fs', t) -> frozen ctxA fr fr'.
Proof.
  intros H. apply first_run_ret in H. destruct H as (t1 & H & _).
  apply predict_ret in H. tauto.
Qed.

(** Case analysis of a run of [main] given as a hypothesis: which part
    stopped, if any. *)
Ltac main_cases H :=
  rewrite main_eq in H;
  destruct (prologue _ _) as [[[?fr0|?s] ?fs0] ?t0] eqn:Hpro;
  [ destruct (first_run _ _ _) as [[[?fr1|?s] ?fs1] ?t1] eqn:Hrun1;
    [ destruct (reload _ _) as [[[?fr2|?s] ?fs2] ?t2] eqn:Hrel;
      [ destruct (second_run _ _ _) as [[[?fr3|?s] ?fs3] ?t3] eqn:Hrun2
      | ]
    | ]
  | ];
  injection H as <- <- <-.

(** Case analysis of a run of [reload] given as a hypothesis. *)
Ltac reload_cases H :=
  match type of H with
  | reload ?fr ?fs = _ =>
      rewrite reload_eq in H;
      let Hload := fresh "Hload" in
      destruct (load_state fr fs) as [[[?fr|?s] ?fs] ?t] eqn:Hload;
      try discriminate H;
      injection H as <- <- <-;
      load_cases Hload
  end.

Lemma in_forall {A} (P : A -> Prop) (l : list A) (x : A) :
  Forall P l -> In x l -> P x.
Proof. intros H. apply Forall_forall. exact H. Qed.

(** Dropping the parts of a trace that cannot hold the event of [Hin]. *)
Ltac absurd_in Hin :=
  exfalso;
  match type of Hin with
  | In _ ?t =>
      match goal with
      | F : Forall _ t |- _ =>
          eapply in_forall in Hin; [|exact F]; simpl in Hin;
          solve [discriminate Hin | contradiction]
      end
  end.

Ltac locate Hin :=
  repeat match type of Hin with
         | _ \/ _ => destruct Hin as [Hin|Hin]
         end;
  try absurd_in Hin.

(** At the checkpoint: the size recorded is the one the library reported. *)
Lemma prologue_state_size argv fs fr fs' t m :
  prologue argv fs = (Ret fr, fs', t) ->
  In (GetStateSize ctxA m) t -> state_size fr = m.
Proof.
  intros H Hin. prologue_cases H. simpl in Hin.
  repeat (destruct Hin as [Hin|Hin]; try discriminate Hin).
  - injection Hin as <-. reflexivity.
  - destruct Hin.
Qed.

Lemma prologue_no_read (e : event) :
  prologue_event e -> ~ is_fread e /\ ~ is_set_state e.
Proof. destruct e; simpl; tauto. Qed.

Lemma run_no_read h (e : event) :
  run_event h e -> ~ is_fread e /\ ~ is_set_state e.
Proof. destruct e; simpl; tauto. Qed.

(** C3. When the size the second context reports differs from the size
    of the captured state, [main] stops with exit code 1 right after the
    size query, with the diagnostic "failed to validate state size"; no
    byte is read from the file and [llama_set_state_data] is never called. *)
Theorem size_mismatch_rejected argv fs r fs' tr m n :
  main zero_f argv fs = (r, fs', tr) ->
  In (GetStateSize ctxA m) tr ->
  In (GetStateSize ctxB n) tr ->
  m <> n ->
  r = Stop (Exit 1) /\
  (exists tr0, tr = tr0 ++ [GetStateSize ctxB n; Stderr msg_state_size]) /\
  Forall (fun e => ~ is_fread e /\ ~ is_set_state e) tr.
Proof.
  intros H HA HB Hne. main_cases H.
  all: pose proof Hpro as Ep; apply prologue_events in Ep.
  all: try (pose proof Hrun1 as E1; apply first_run_any in E1;
            destruct E1 as [-> E1]).
  all: try (pose proof Hrel as Er; apply reload_events in Er).
  all: try (pose proof Hrun2 as E2; apply second_run_any in E2;
            destruct E2 as [-> E2]).
  all: rewrite ?in_app_iff in HA, HB.
  all: locate HA; locate HB.
  all: eapply prologue_state_size in HA; [|exact Hpro].
  all: apply first_run_frozen in Hrun1 as Hfz.
  all: destruct Hfz as (_ & _ & _ & _ & Hsz & _); rewrite HA in Hsz.
  all: reload_cases Hrel.
  all: rewrite ?Hsz in *.
  all: simpl in HB;
    repeat (destruct HB as [HB|HB]; try discriminate HB);
    try contradiction.
  all: injection HB as <-.
  all: try (apply negb_false_iff, N.eqb_eq in Hsize; congruence).
  split; [reflexivity|]. split.
  - exists (t0 ++ t1 ++
            [Free ctxA; InitFromFile ctxB true;
             Fopen state_file "rb" (non_null fp)]).
    rewrite <- !app_assoc. reflexivity.
  - rewrite !Forall_app. repeat split.
    + eapply Forall_impl; [|exact Ep]. apply prologue_no_read.
    + eapply Forall_impl; [|exact E1]. apply run_no_read.
    + repeat constructor; simpl; tauto.
Qed.

(** C4. When [fread] yields fewer bytes than were asked for, and the
    count asked for is the state size the second context requires, [main]
    stops with exit code 1 right after the read, with the diagnostic
    "failed to read state"; [llama_set_state_data] is never called, so the
    short buffer is not applied in any form. *)
Theorem short_read_rejected argv fs r fs' tr count got :
  main zero_f argv fs = (r, fs', tr) ->
  In (Fread count got) tr ->
  (got < count)%N ->
  r = Stop (Exit 1) /\
  In (GetStateSize ctxB count) tr /\
  (exists tr0, tr = tr0 ++ [Fread count got; Stderr msg_read_state]) /\
  Forall (fun e => ~ is_set_state e) tr.
Proof.
  intros H HR Hlt. main_cases H.
  all: pose proof Hpro as Ep; apply prologue_events in Ep.
  all: try (pose proof Hrun1 as E1; apply first_run_any in E1;
            destruct E1 as [-> E1]).
  all: try (pose proof Hrun2 as E2; apply second_run_any in E2;
            destruct E2 as [-> E2]).
  all: rewrite ?in_app_iff in HR.
  all: locate HR.
  all: reload_cases Hrel.
  all: simpl in HR;
    repeat (destruct HR as [HR|HR]; try discriminate HR);
    try contradiction.
  all: injection HR as <- <-.
  all: apply negb_false_iff, N.eqb_eq in Hsize.
  all: try (apply negb_false_iff, N.eqb_eq in Hlen; lia).
  split; [reflexivity|]. split.
  { rewrite !in_app_iff. right. right. rewrite <- Hsize. simpl. tauto. }
  split.
  - exists (t0 ++ t1 ++
            [Free ctxA; InitFromFile ctxB true;
             Fopen state_file "rb" true;
             GetStateSize ctxB (llama_get_state_size c)]).
    rewrite <- !app_assoc. reflexivity.
  - rewrite !Forall_app. repeat split.
    + eapply Forall_impl; [|exact Ep]. intros e He.
      apply prologue_no_read in He. tauto.
    + eapply Forall_impl; [|exact E1]. intros e He.
      apply run_no_read in He. tauto.
    + repeat constructor; simpl; tauto.
Qed.

(** C7. For a vocabulary of [n_vocab] entries the candidate array built
    in a generation step has exactly [n_vocab] entries, in vocabulary order:
    entry [i] has id [i], logit [logits[i]] and probability [0.0f]; the
    array is not marked sorted.  Building it touches neither the storage nor
    the trace, and every step passes to the sampler the array built from the
    logits its own handle holds at that moment. *)
Theorem candidates_cover_vocabulary logits n_vocab fs :
  0 <= n_vocab ->
  exists arr,
    build_candidates zero_f logits n_vocab fs = (Ret arr, fs, []) /\
    Z.of_nat (length (data arr)) = n_vocab /\
    size arr = Z.to_N n_vocab /\
    sorted arr = false /\
    (forall i, 0 <= i < n_vocab ->
       nth_error (data arr) (Z.to_nat i) =
       Some {| id := i; logit := logits i; p := zero_f |}) /\
    (forall h k fr c r fs' t cands tok,
       handle_ctx h fr = Some c ->
       llama_get_logits c = logits -> llama_n_vocab c = n_vocab ->
       predict_step zero_f h k fr fs = (r, fs', t) ->
       In (SampleToken h cands tok) t -> cands = arr).
Proof.
  intros Hn. exists (candidate_array zero_f logits n_vocab).
  split; [apply build_candidates_run; assumption|].
  assert (Hlen : length (data (candidate_array zero_f logits n_vocab))
                 = Z.to_nat n_vocab).
  { unfold candidate_array. cbn [data]. rewrite length_map, length_seq.
    reflexivity. }
  split; [rewrite Hlen; lia|].
  split; [unfold candidate_array; cbn [size];
          rewrite length_map, length_seq; lia|].
  split; [reflexivity|]. split.
  - intros i Hi. unfold candidate_array. cbn [data].
    rewrite nth_error_map, nth_error_seq.
    destruct (Nat.ltb_spec (Z.to_nat i) (Z.to_nat n_vocab)); [|lia].
    simpl. rewrite Z2Nat.id by lia. reflexivity.
  - intros h k fr c r fs' t cands tok Hc Hl Hv H Hin.
    rewrite predict_step_eq, Hc in H.
    destruct (Z.ltb_spec (llama_n_vocab c) 0) as [Hneg|_]; [lia|].
    cbv zeta in H. rewrite Hl, Hv in H.
    destruct (negb _); [|destruct (INT_MAX <? _)];
      injection H as <- <- <-; simpl in Hin;
      repeat (destruct Hin as [Hin|Hin]; try discriminate Hin);
      try contradiction; congruence.
Qed.

(** C8. The checkpoint holds copies: the first run appends the tokens it
    samples to the live history and advances the live position, and leaves
    both copies as they were taken; after the reload the live history and
    position are exactly the values copied at the checkpoint. *)
Theorem history_copy_independent fr fs fr1 fs1 t1 fr2 fs2 t2 :
  first_run zero_f (checkpoint fr) fs = (Ret fr1, fs1, t1) ->
  reload fr1 fs1 = (Ret fr2, fs2, t2) ->
  last_n_tokens_data_saved (checkpoint fr) = last_n_tokens_data fr /\
  n_past_saved (checkpoint fr) = n_past fr /\
  last_n_tokens_data fr1 = last_n_tokens_data fr ++ sampled ctxA t1 /\
  n_past fr1 = n_past fr + Z.of_nat (length (sampled ctxA t1)) /\
  last_n_tokens_data_saved fr1 = last_n_tokens_data fr /\
  n_past_saved fr1 = n_past fr /\
  last_n_tokens_data fr2 = last_n_tokens_data fr /\
  n_past fr2 = n_past fr /\
  last_n_tokens_data_saved fr2 = last_n_tokens_data fr /\
  n_past_saved fr2 = n_past fr.
Proof.
  intros H1 H2.
  apply first_run_ret in H1. destruct H1 as (t & H1 & ->).
  apply predict_ret in H1.
  destruct H1 as (Hfz & Hl & Hn & Hlen & _ & _).
  destruct Hfz as (_ & _ & _ & _ & _ & _ & Hs & Hp & _).
  simpl in Hs, Hp, Hl, Hn.
  assert (Hsam : sampled ctxA
            (Stdout (nl ++ prompt (params (checkpoint fr)))%string :: t
             ++ [Stdout (nl ++ nl)%string]) = sampled ctxA t).
  { simpl. rewrite sampled_app. simpl. apply app_nil_r. }
  rewrite Hsam, Hlen.
  reload_cases H2. simpl. rewrite Hs, Hp.
  repeat split; assumption.
Qed.

(** The prompt is the first [n] entries of the tokenizer's buffer, and
    the buffer has room for them. *)
Lemma prompt_length (c : llama_context) text n_ctx0 :
  let buf := repeat 0 (Z.to_nat n_ctx0) in
  let r := llama_tokenize c text buf (Z.of_nat (length buf)) true in
  1 <= snd r ->
  Z.of_nat (length (firstn (Z.to_nat (snd r)) (fst r))) = snd r.
Proof.
  intros buf r Hr. rewrite length_firstn.
  unfold r at 2. rewrite llama_tokenize_buffer.
  pose proof (@llama_tokenize_bound _ _ c text buf (Z.of_nat (length buf))
                true) as Hb.
  fold r in Hb. specialize (Hb (Nat2Z.is_nonneg _)).
  clearbody r. clearbody buf.
  rewrite Nat2Z.inj_min, Z2Nat.id by lia. apply Z.min_l. exact Hb.
Qed.

(** C9. When the tokenizer returns a count below 1, [main] stops with
    exit code 1 and the diagnostic "failed to tokenize prompt", having done
    nothing but print the build line, create the context and tokenize: no
    evaluation, no snapshot, no generation.  Otherwise the first [n] entries
    of the token buffer are evaluated at position 0, appended to the token
    history (after its [repeat_last_n] zeros), and the position becomes
    [n]. *)
Theorem tokenize_failure_stops argv fs r fs' tr rp fsp tp text n_max n :
  main zero_f argv fs = (r, fs', tr) ->
  bind (setup argv) eval_prompt fs = (rp, fsp, tp) ->
  In (Tokenize text n_max n) tr ->
  (n < 1 ->
     r = Stop (Exit 1) /\
     tr = [Stderr build_line; InitFromFile ctxA true;
           Tokenize text n_max n; Stderr msg_tokenize]) /\
  (1 <= n ->
     exists fr toks ret rest,
       rp = Ret fr /\
       toks = firstn (Z.to_nat n) (tokens fr) /\
       Z.of_nat (length toks) = n /\
       tr = [Stderr build_line; InitFromFile ctxA true;
             Tokenize text n_max n;
             Eval ctxA toks 0 (n_threads (params fr)) ret] ++ rest /\
       last_n_tokens_data fr =
         repeat 0 (Z.to_nat (repeat_last_n (params fr))) ++ toks /\
       n_past fr = n).
Proof.
  intros H Hp HT. rewrite through_prompt_eq in Hp. cbv zeta in Hp.
  main_cases H.
  all: try (pose proof Hrun1 as E1; apply first_run_any in E1;
            destruct E1 as [-> E1]).
  all: try (pose proof Hrel as Er; apply reload_events in Er).
  all: try (pose proof Hrun2 as E2; apply second_run_any in E2;
            destruct E2 as [-> E2]).
  all: rewrite ?in_app_iff in HT.
  all: locate HT.
  all: prologue_cases Hpro.
  all: simpl in HT;
    repeat (destruct HT as [HT|HT]; try discriminate HT);
    try contradiction.
  all: injection HT as <- <- <-.
  all: cbv beta iota in Hp.
  all: injection Hp as <- <- <-.
  all: first [ apply Z.ltb_lt in Htok | apply Z.ltb_ge in Htok ].
  all: split; [intros Hlt; try lia|intros Hge; try lia].
  all: try (split; reflexivity).
  all: eexists _, _, _, _.
  all: split; [reflexivity|].
  all: split; [reflexivity|].
  all: split; [apply prompt_length; assumption|].
  all: split; [simpl; rewrite <- ?app_assoc; simpl; reflexivity|].
  all: split; reflexivity.
Qed.

Lemma sampled_none h (t : list event) :
  Forall (fun e => ~ is_sample e) t -> sampled h t = [].
Proof.
  induction 1 as [|e t He _ IH]; [reflexivity|].
  unfold sampled in *. simpl. rewrite IH.
  destruct e; simpl in *; try reflexivity. tauto.
Qed.

Lemma sampled_prologue h (t : list event) :
  Forall prologue_event t -> sampled h t = [].
Proof.
  intros H. apply sampled_none. eapply Forall_impl; [|exact H].
  intros e; destruct e; simpl; tauto.
Qed.

Lemma sampled_reload h (t : list event) :
  Forall reload_event t -> sampled h t = [].
Proof.
  intros H. apply sampled_none. eapply Forall_impl; [|exact H].
  intros e; destruct e; simpl; tauto.
Qed.

Lemma sampled_other h h' (t : list event) :
  Forall (run_event h') t -> h <> h' -> sampled h t = [].
Proof.
  intros H Hne. induction H as [|e t He _ IH]; [reflexivity|].
  unfold sampled in *. simpl. rewrite IH.
  destruct e; simpl in *; try reflexivity.
  subst. destruct h, h'; simpl; congruence.
Qed.

Lemma predict_zero h fr fs :
  n_predict (params fr) = 0 -> predict zero_f h fr fs = (Ret fr, fs, []).
Proof. intros H. unfold predict, for_range. rewrite H. reflexivity. Qed.

Lemma reload_params fr fs fr2 fs2 t2 :
  reload fr fs = (Ret fr2, fs2, t2) -> params fr2 = params fr.
Proof. intros H. reload_cases H. reflexivity. Qed.

Lemma prologue_params argv fs fr fs' t :
  prologue argv fs = (Ret fr, fs', t) ->
  n_predict (params fr) = effective_n_predict argv.
Proof. intros H. prologue_cases H. reflexivity. Qed.

(** C10. A negative n_predict is replaced by 16, and the number that
    results is the number of steps of each run that completes.  With
    n_predict equal to zero no token is sampled in either run; if the
    snapshot part and the reload part succeed, [main] returns 0 and its trace
    is the whole sequence: state size, open, capture, write, close, the two
    prints of the empty first run, free, second context, open, size check,
    read, restore, close, the print of the empty second run. *)
Theorem n_predict_default_and_zero argv fs r fs' tr :
  main zero_f argv fs = (r, fs', tr) ->
  (n_predict (snd (gpt_params_parse argv initial_params)) < 0 ->
     effective_n_predict argv = 16) /\
  (r = Ret 0 ->
     length (sampled ctxA tr) = Z.to_nat (effective_n_predict argv) /\
     length (sampled ctxB tr) = Z.to_nat (effective_n_predict argv)) /\
  (effective_n_predict argv = 0 ->
     sampled ctxA tr = [] /\ sampled ctxB tr = [] /\
     forall fr0 fs0 t0 fr2 fs2 t2,
       prologue argv fs = (Ret fr0, fs0, t0) ->
       reload fr0 fs0 = (Ret fr2, fs2, t2) ->
       r = Ret 0 /\
       tr = t0 ++ [Stdout (nl ++ prompt (params fr0))%string;
                   Stdout (nl ++ nl)%string]
               ++ t2 ++ [Stdout (nl ++ nl)%string] /\
       (exists text n_max n toks thr e mem w,
          t0 = [Stderr build_line; InitFromFile ctxA true;
                Tokenize text n_max n; Eval ctxA toks 0 thr e;
                GetStateSize ctxA (state_size fr0);
                Fopen state_file "wb" true; CopyStateData ctxA mem;
                Fwrite mem w; Fclose]) /\
       (exists mem,
          t2 = [Free ctxA; InitFromFile ctxB true;
                Fopen state_file "rb" true;
                GetStateSize ctxB (state_size fr0);
                Fread (state_size fr0) (state_size fr0);
                SetStateData ctxB mem; Fclose])).
Proof.
  intros H. split; [|split].
  - intros Hneg. unfold effective_n_predict, default_n_predict.
    destruct (Z.ltb_spec
                (n_predict (snd (gpt_params_parse argv initial_params))) 0);
      [reflexivity|lia].
  - intros Hr. main_cases H; try discriminate Hr. clear Hr.
    pose proof Hpro as Ep; apply prologue_events in Ep.
    pose proof Hrel as Er; apply reload_events in Er.
    pose proof (prologue_params _ _ Hpro) as Hnp.
    pose proof (reload_params _ _ Hrel) as Hp2.
    apply first_run_ret in Hrun1. destruct Hrun1 as (u1 & Hrun1 & ->).
    apply second_run_ret in Hrun2. destruct Hrun2 as (u3 & Hrun2 & ->).
    pose proof (predict_any _ _ _ Hrun1) as [_ E1].
    pose proof (predict_any _ _ _ Hrun2) as [_ E2].
    apply predict_ret in Hrun1, Hrun2.
    destruct Hrun1 as (Hfz & _ & _ & Hl1 & _).
    destruct Hrun2 as (_ & _ & _ & Hl2 & _).
    destruct Hfz as (Hp1 & _).
    rewrite Hp2, Hp1, Hnp in Hl2. rewrite Hnp in Hl1.
    rewrite !sampled_app. simpl. rewrite !sampled_app. simpl.
    rewrite !(sampled_prologue _ Ep), !(sampled_reload _ Er).
    assert (X3 : sampled ctxA u3 = [])
      by (eapply sampled_other; [exact E2|discriminate]).
    assert (X1 : sampled ctxB u1 = [])
      by (eapply sampled_other; [exact E1|discriminate]).
    rewrite X1, X3, !app_nil_r. simpl. split; assumption.
  - intros Hz.
    assert (Hsam : sampled ctxA tr = [] /\ sampled ctxB tr = []).
    { main_cases H.
      all: pose proof Hpro as Ep; apply prologue_events in Ep.
      all: try (pose proof Hrel as Er; apply reload_events in Er).
      all: try (pose proof (prologue_params _ _ Hpro) as Hnp;
                rewrite Hz in Hnp;
                rewrite first_run_eq, (predict_zero _ _ _ Hnp) in Hrun1;
                first [discriminate Hrun1|injection Hrun1 as <- <- <-]).
      all: try (pose proof (reload_params _ _ Hrel) as Hp2;
                rewrite <- Hp2 in Hnp;
                rewrite second_run_eq, (predict_zero _ _ _ Hnp) in Hrun2;
                first [discriminate Hrun2|injection Hrun2 as <- <- <-]).
      all: rewrite ?sampled_app; simpl.
      all: rewrite ?(sampled_prologue _ Ep), ?(sampled_reload _ Er).
      all: split; reflexivity. }
    split; [tauto|]. split; [tauto|].
    intros fr0 fs0 t0 fr2 fs2 t2 Hpro Hrel.
    pose proof (prologue_params _ _ Hpro) as Hnp. rewrite Hz in Hnp.
    pose proof (reload_params _ _ Hrel) as Hp2.
    rewrite main_eq, Hpro in H.
    rewrite first_run_eq, (predict_zero _ _ _ Hnp), Hrel in H.
    rewrite <- Hp2 in Hnp.
    rewrite second_run_eq, (predict_zero _ _ _ Hnp) in H.
    injection H as <- <- <-.
    split; [reflexivity|]. split; [reflexivity|]. split.
    + prologue_cases Hpro. simpl. eexists _, _, _, _, _, _, _, _.
      reflexivity.
    + assert (Hsz : state_size fr0 = state_size fr0) by reflexivity.
      reload_cases Hrel.
      apply negb_false_iff, N.eqb_eq in Hsize, Hlen.
      rewrite Hlen, <- Hsize. eexists. reflexivity.
Qed.

(** What a completed prologue leaves: the captured state in the buffer
    and, through [fopen], [fwrite] and [fclose], in the storage. *)
Lemma prologue_ret_inv argv fs fr fs0 t0 :
  prologue argv fs = (Ret fr, fs0, t0) ->
  exists c1 fs1 fp fs2 n,
    ctx fr = Some c1 /\
    state_size fr = llama_get_state_size c1 /\
    state_mem fr = llama_copy_state_data c1 /\
    n_past_saved fr = n_past fr /\
    fopen fs state_file "wb" = (fs1, Some fp) /\
    fwrite fs1 fp (llama_copy_state_data c1) = (fs2, n) /\
    fs0 = fclose fs2 fp.
Proof.
  intros H. prologue_cases H. simpl.
  eexists _, _, _, _, _. repeat (split; [reflexivity|]).
  split; [apply surjective_pairing|reflexivity].
Qed.

(** What a completed reload did: the size check passed, the read was full,
    and the second context holds the buffer. *)
Lemma reload_ret_inv fr fs fr2 fs2 t2 :
  reload fr fs = (Ret fr2, fs2, t2) ->
  exists c2 fs1 fp fs3 bytes,
    state_size fr = llama_get_state_size c2 /\
    fopen fs state_file "rb" = (fs1, Some fp) /\
    fread fs1 fp (state_size fr) = (fs3, bytes) /\
    N.of_nat (length bytes) = state_size fr /\
    ctx2 fr2 = Some (llama_set_state_data c2
                       (bytes ++ skipn (length bytes) (state_mem fr))) /\
    n_past fr2 = n_past_saved fr /\
    params fr2 = params fr.
Proof.
  intros H. reload_cases H.
  apply negb_false_iff, N.eqb_eq in Hsize, Hlen. simpl.
  eexists _, _, _, _, _.
  split; [exact Hsize|]. split; [reflexivity|]. split; [exact Hread|].
  split; [exact Hlen|]. repeat split.
Qed.

Lemma reload_stop_no_restore fr fs s fs2 t2 bytes :
  reload fr fs = (Stop s, fs2, t2) -> ~ In (SetStateData ctxB bytes) t2.
Proof.
  intros H Hin. reload_cases H; simpl in Hin;
    repeat (destruct Hin as [Hin|Hin]; try discriminate Hin); contradiction.
Qed.

(** C2, as amended.  [main] never compares the two runs.  Whenever the
    four parts of [main] all complete, [main] returns 0, whatever the two
    token sequences are; the only thing written to stderr is the build line,
    and the tokens of the first and of the second run are those sampled in
    the respective loop. *)
Theorem runs_not_compared argv fs fr0 fs0 t0 fr1 fs1 t1 fr2 fs2 t2
  fr3 fs3 t3 :
  prologue argv fs = (Ret fr0, fs0, t0) ->
  first_run zero_f fr0 fs0 = (Ret fr1, fs1, t1) ->
  reload fr1 fs1 = (Ret fr2, fs2, t2) ->
  second_run zero_f fr2 fs2 = (Ret fr3, fs3, t3) ->
  main zero_f argv fs = (Ret 0, fs3, t0 ++ t1 ++ t2 ++ t3) /\
  stderr_of (t0 ++ t1 ++ t2 ++ t3) = [build_line] /\
  sampled ctxA (t0 ++ t1 ++ t2 ++ t3) = sampled ctxA t1 /\
  sampled ctxB (t0 ++ t1 ++ t2 ++ t3) = sampled ctxB t3.
Proof.
  intros Hpro Hrun1 Hrel Hrun2.
  split.
  { rewrite main_eq, Hpro, Hrun1, Hrel, Hrun2. reflexivity. }
  pose proof Hpro as Ep; apply prologue_events in Ep.
  pose proof Hrun1 as E1; apply first_run_any in E1; destruct E1 as [_ E1].
  pose proof Hrel as Er; apply reload_events in Er.
  pose proof Hrun2 as E2; apply second_run_any in E2; destruct E2 as [_ E2].
  split.
  - apply first_run_ret in Hrun1. destruct Hrun1 as (u1 & Hrun1 & ->).
    apply second_run_ret in Hrun2. destruct Hrun2 as (u3 & Hrun2 & ->).
    apply predict_ret in Hrun1, Hrun2.
    destruct Hrun1 as (_ & _ & _ & _ & _ & Hs1).
    destruct Hrun2 as (_ & _ & _ & _ & _ & Hs3).
    prologue_cases Hpro. reload_cases Hrel.
    rewrite !stderr_of_app. simpl. rewrite !stderr_of_app, Hs1, Hs3.
    reflexivity.
  - rewrite !sampled_app.
    rewrite !(sampled_prologue _ Ep), !(sampled_reload _ Er).
    assert (X3 : sampled ctxA t3 = [])
      by (eapply sampled_other; [exact E2|discriminate]).
    assert (X1 : sampled ctxB t1 = [])
      by (eapply sampled_other; [exact E1|discriminate]).
    rewrite X1, X3, !app_nil_r. split; reflexivity.
Qed.

(** X1. The positions [main] passes to [llama_eval] in a run that completes:
    the prompt, [n] tokens, at position 0; then in each run one token at
    each of the positions [n], [n + 1], ... *)
Lemma position_discipline argv fs fs' tr :
  main zero_f argv fs = (Ret 0, fs', tr) ->
  exists n,
    1 <= n /\
    let steps := map (fun k => (1, n + Z.of_nat k))
                     (seq 0 (Z.to_nat (effective_n_predict argv))) in
    evals_of tr = (n, 0) :: steps ++ steps.
Proof.
  intros H. rewrite main_eq in H.
  destruct (prologue argv fs) as [[[fr0|s0] fs0] t0] eqn:Hpro;
    [|discriminate].
  destruct (first_run zero_f fr0 fs0) as [[[fr1|s1] fs1] t1] eqn:Hrun1;
    [|discriminate].
  destruct (reload fr1 fs1) as [[[fr2|s2] fs2] t2] eqn:Hrel; [|discriminate].
  destruct (second_run zero_f fr2 fs2) as [[[fr3|s3] fs3] t3] eqn:Hrun2;
    [|discriminate].
  injection H as <- <-.
  pose proof (prologue_params _ _ Hpro) as Hnp.
  apply first_run_ret in Hrun1. destruct Hrun1 as (u1 & Hrun1 & ->).
  apply second_run_ret in Hrun2. destruct Hrun2 as (u3 & Hrun2 & ->).
  apply predict_ret in Hrun1, Hrun2.
  destruct Hrun1 as (Hfz & _ & _ & _ & Hev1 & _).
  destruct Hrun2 as (_ & _ & _ & _ & Hev3 & _).
  destruct Hfz as (Hps & _ & _ & _ & _ & _ & _ & Hsv & _).
  pose proof (reload_ret_inv _ _ Hrel) as (c2 & _ & _ & _ & _ & _ & _ & _ & _
                                             & _ & Hnp2 & Hps2).
  rewrite Hps2, Hps, Hnp, Hnp2, Hsv in Hev3. rewrite Hnp in Hev1.
  assert (Ev2 : evals_of t2 = []).
  { reload_cases Hrel. reflexivity. }
  prologue_cases Hpro. apply Z.ltb_ge in Htok.
  eexists. split; [exact Htok|]. cbv zeta.
  simpl in Hev1, Hev3.
  rewrite !evals_of_app. simpl. rewrite !evals_of_app, Ev2, Hev1, Hev3.
  simpl. rewrite prompt_length by assumption. rewrite app_nil_r.
  reflexivity.
Qed.

(** ** The two runs under the engine contract *)

Section Determinism.

Variable R : llama_context -> llama_context -> Prop.
Hypothesis engine : engine_contract R.

Lemma candidate_array_related c c' :
  R c c' ->
  candidate_array zero_f (llama_get_logits c') (llama_n_vocab c')
  = candidate_array zero_f (llama_get_logits c) (llama_n_vocab c).
Proof.
  intros Hr. rewrite <- (@same_vocab _ _ R engine _ _ Hr).
  unfold candidate_array.
  assert (E : map (fun i => {| id := Z.of_nat i;
                               logit := llama_get_logits c' (Z.of_nat i);
                               p := zero_f |})
                  (seq 0 (Z.to_nat (llama_n_vocab c)))
              = map (fun i => {| id := Z.of_nat i;
                                 logit := llama_get_logits c (Z.of_nat i);
                                 p := zero_f |})
                    (seq 0 (Z.to_nat (llama_n_vocab c)))).
  { apply map_ext_in. intros i Hi. apply in_seq in Hi.
    rewrite (@same_logits _ _ R engine c c' (Z.of_nat i) Hr) by lia. reflexivity. }
  rewrite E. reflexivity.
Qed.

Lemma loop_related fuel : forall i frA frB fsA fsB frA' fsA' tA,
  related R frA frB ->
  for_loop fuel i (predict_step zero_f ctxA) frA fsA = (Ret frA', fsA', tA) ->
  exists frB' tB,
    for_loop fuel i (predict_step zero_f ctxB) frB fsB = (Ret frB', fsB, tB)
    /\ sampled ctxB tB = sampled ctxA tA.
Proof.
  induction fuel as [|k IH]; intros i frA frB fsA fsB frA' fsA' tA Hrel H;
    simpl in H.
  - injection H as <- <- <-. exists frB, []. split; reflexivity.
  - apply bind_inv in H.
    destruct H as [(s & H & Hs)|(a & fs1 & t1 & t2 & H & H2 & ->)];
      [discriminate|].
    destruct Hrel as ((cA & cB & HcA & HcB & Hr) & Hnp & Hps).
    step_cases H. simpl in Hc. rewrite HcA in Hc. injection Hc as <-.
    pose proof (candidate_array_related Hr) as Hcand.
    set (cands := candidate_array zero_f (llama_get_logits cA)
                    (llama_n_vocab cA)) in *.
    destruct (@same_sample _ _ R engine cA cB cands Hr) as [Hst Hsr].
    destruct (@same_eval _ _ R engine _ _ [snd (llama_sample_token cA cands)]
                (n_past frA) (n_threads (params frA)) Hsr) as [Het Her].
    set (sB := llama_sample_token cB cands) in *.
    set (eB := llama_eval (fst sB) [snd (llama_sample_token cA cands)]
                 (n_past frA) (n_threads (params frA))) in *.
    specialize (IH (i + 1)
                  (step_frame ctxA (snd (llama_sample_token cA cands))
                     (fst (llama_eval (fst (llama_sample_token cA cands))
                             [snd (llama_sample_token cA cands)]
                             (n_past frA) (n_threads (params frA)))) frA)
                  (step_frame ctxB (snd sB) (fst eB) frB)
                  fsA fsB frA' fsA' t2).
    destruct IH as (frB' & tB & HB & HsB).
    { split; [|split].
      - eexists _, _. split; [reflexivity|]. split; [reflexivity|].
        exact Her.
      - simpl. lia.
      - simpl. exact Hps. }
    { exact H2. }
    eexists frB', _. split.
    + simpl. unfold bind. rewrite predict_step_eq. simpl handle_ctx.
      rewrite HcB. cbv zeta. rewrite Hcand.
      rewrite <- (@same_vocab _ _ R engine _ _ Hr), Hv.
      fold cands. fold sB.
      rewrite <- Hst, <- Hnp, <- Hps. fold eB. rewrite <- Het.
      rewrite He, Ho. rewrite <- Hst in HB. rewrite HB. reflexivity.
    + rewrite !sampled_app, HsB. reflexivity.
Qed.

Lemma predict_related frA frB fsA fsB frA' fsA' tA :
  related R frA frB ->
  predict zero_f ctxA frA fsA = (Ret frA', fsA', tA) ->
  exists frB' tB,
    predict zero_f ctxB frB fsB = (Ret frB', fsB, tB)
    /\ sampled ctxB tB = sampled ctxA tA.
Proof.
  intros Hrel H. unfold predict, for_range in *.
  destruct Hrel as (Hc & Hn & Hp). rewrite <- Hp.
  eapply loop_related; [|exact H]. repeat split; assumption.
Qed.

(** C1. Under the contract of the engine and of the storage, every run
    of [main] that gets as far as restoring the state into the second
    context returns 0, and the tokens sampled in the second run are, one by
    one, the tokens sampled in the first run; there are as many of them as
    the effective n_predict says (none when it is 0). *)
Theorem restore_determinism argv fs r fs' tr bytes :
  storage_contract ->
  main zero_f argv fs = (r, fs', tr) ->
  In (SetStateData ctxB bytes) tr ->
  r = Ret 0 /\
  sampled ctxB tr = sampled ctxA tr /\
  length (sampled ctxA tr) = Z.to_nat (effective_n_predict argv).
Proof.
  intros Hst H Hin. main_cases H.
  all: pose proof Hpro as Ep; apply prologue_events in Ep.
  all: try (pose proof Hrun1 as E1; apply first_run_any in E1;
            destruct E1 as [_ E1]).
  all: try (pose proof Hrel as Er; apply reload_events in Er).
  all: try (pose proof Hrun2 as E2; apply second_run_any in E2;
            destruct E2 as [_ E2]).
  all: rewrite ?in_app_iff in Hin.
  all: locate Hin.
  all: try (exfalso; eapply reload_stop_no_restore; eassumption).
  all: clear Hin.
  all: pose proof (prologue_params _ _ Hpro) as Hnp.
  all: apply prologue_ret_inv in Hpro.
  all: destruct Hpro as (c1 & fsw & fpw & fsw2 & nw & Hc1 & Hsz & Hmem
                         & Hsaved & Hopenw & Hwrite & ->).
  all: apply first_run_ret in Hrun1; destruct Hrun1 as (u1 & Hrun1 & ->).
  all: pose proof (predict_any _ _ _ Hrun1) as [-> _].
  all: pose proof (predict_ret _ _ _ Hrun1) as
         (Hfz & _ & _ & Hlen1 & _ & _).
  all: destruct Hfz as (Hps & _ & _ & _ & Hsz1 & Hmem1 & _ & Hsaved1 & _).
  all: apply reload_ret_inv in Hrel.
  all: destruct Hrel as (c2 & fsr & fpr & fsr2 & rd & Hsize & Hopenr & Hread
                         & Hrdlen & Hc2 & Hnp2 & Hps2).
  all: rewrite Hsz1, Hsz in Hsize, Hread, Hrdlen.
  all: rewrite <- llama_copy_state_data_length in Hread, Hrdlen.
  all: apply Nat2N.inj in Hrdlen.
  all: pose proof (Hst _ _ _ _ _ _ _ _ _ _ Hopenw Hwrite Hopenr Hread Hrdlen)
         as Hbytes.
  all: rewrite Hmem1, Hmem, Hbytes, skipn_all, app_nil_r in Hc2.
  all: assert (Hrelated : related R fr0 fr2)
         by (split; [eexists _, _; split; [exact Hc1|]; split; [exact Hc2|];
                     apply (restore_capture engine); symmetry; exact Hsize
                    |split; congruence]).
  all: destruct (@predict_related _ _ _ fs2 _ _ _ Hrelated Hrun1)
         as (frB' & u3 & Hrun3 & Hsame).
  all: rewrite second_run_eq, Hrun3 in Hrun2.
  all: try discriminate Hrun2.
  injection Hrun2 as <- <- <-.
  split; [reflexivity|].
  pose proof (predict_any _ _ _ Hrun3) as [_ E3].
  rewrite !sampled_app. simpl. rewrite !sampled_app. simpl.
  rewrite !(sampled_prologue _ Ep), !(sampled_reload _ Er).
  assert (X3 : sampled ctxA u3 = [])
    by (eapply sampled_other; [exact E3|discriminate]).
  assert (E1' : Forall (run_event ctxA) u1)
    by (eapply predict_any; exact Hrun1).
  assert (X1 : sampled ctxB u1 = [])
    by (eapply sampled_other; [exact E1'|discriminate]).
  rewrite X1, X3, !app_nil_r. simpl.
  split; [exact Hsame|]. rewrite Hlen1, Hnp. reflexivity.
Qed.

End Determinism.

(** * Further properties of [main] *)

(** ** More about the generation loop *)

Lemma evaluated_app h (t1 t2 : list event) :
  evaluated h (t1 ++ t2) = evaluated h t1 ++ evaluated h t2.
Proof. unfold evaluated. apply flat_map_app. Qed.

Lemma stdout_of_app (t1 t2 : list event) :
  stdout_of (t1 ++ t2) = stdout_of t1 ++ stdout_of t2.
Proof. unfold stdout_of. apply flat_map_app. Qed.

Lemma file_ops_app (t1 t2 : list event) :
  file_ops (t1 ++ t2) = file_ops t1 ++ file_ops t2.
Proof. unfold file_ops. apply flat_map_app. Qed.

(** In a loop, whatever its outcome, each token sampled is handed to
    [llama_eval], alone, and nothing else is. *)
Lemma loop_evaluated h fuel : forall i fr fs r fs' t h',
  for_loop fuel i (predict_step zero_f h) fr fs = (r, fs', t) ->
  evaluated h' t = map (fun tok => [tok]) (sampled h' t).
Proof.
  induction fuel as [|k IH]; intros i fr fs r fs' t h' H; simpl in H.
  - injection H as <- <- <-. reflexivity.
  - apply bind_inv in H.
    destruct H as [(s & H & ->)|(a & fs1 & t1 & t2 & H & H2 & ->)].
    + step_cases H; simpl; rewrite ?app_nil_r;
        destruct (handle_eqb h' h); reflexivity.
    + apply (IH _ _ _ _ _ _ h') in H2. step_cases H.
      rewrite evaluated_app, sampled_app, map_app, H2. simpl.
      destruct (handle_eqb h' h); reflexivity.
Qed.

(** A [llama_eval] of a loop is made at the loop's current position or
    later; if it fails the loop stops there, with the diagnostic. *)
Lemma loop_eval_event h fuel : forall i fr fs r fs' t h' toks np thr e,
  for_loop fuel i (predict_step zero_f h) fr fs = (r, fs', t) ->
  In (Eval h' toks np thr e) t ->
  n_past fr <= np /\
  (e <> 0 ->
   r = Stop (Exit 1) /\
   exists t0, t = t0 ++ [Eval h' toks np thr e; Stderr msg_evaluate]).
Proof.
  induction fuel as [|k IH]; intros i fr fs r fs' t h' toks np thr e H Hin;
    simpl in H.
  - injection H as <- <- <-. destruct Hin.
  - apply bind_inv in H.
    destruct H as [(s & H & ->)|(a & fs1 & t1 & t2 & H & H2 & ->)].
    + step_cases H; simpl in Hin;
        repeat (destruct Hin as [Hin|Hin]; try discriminate Hin);
        try contradiction; injection Hin as <- <- <- <- <-.
      * split; [lia|]. intros _. split; [reflexivity|].
        eexists [_; _]. reflexivity.
      * split; [lia|]. intros He'. apply negb_false_iff, Z.eqb_eq in He.
        contradiction.
    + step_cases H. apply in_app_or in Hin. destruct Hin as [Hin|Hin].
      * simpl in Hin;
          repeat (destruct Hin as [Hin|Hin]; try discriminate Hin);
          try contradiction; injection Hin as <- <- <- <- <-.
        split; [lia|]. intros He'. apply negb_false_iff, Z.eqb_eq in He.
        contradiction.
      * destruct (IH _ _ _ _ _ _ _ _ _ _ _ H2 Hin) as [Hle Hf].
        split.
        { destruct h; simpl in Hle; lia. }
        intros He'. destruct (Hf He') as (-> & t0 & ->).
        split; [reflexivity|]. eexists (_ ++ t0).
        rewrite <- app_assoc. reflexivity.
Qed.

(** A loop that returns from [main] returns 1, after the diagnostic. *)
Lemma loop_exit h fuel : forall i fr fs code fs' t,
  for_loop fuel i (predict_step zero_f h) fr fs = (Stop (Exit code), fs', t) ->
  code = 1 /\ exists t0, t = t0 ++ [Stderr msg_evaluate].
Proof.
  induction fuel as [|k IH]; intros i fr fs code fs' t H; simpl in H.
  - discriminate.
  - apply bind_inv in H.
    destruct H as [(s & H & Hs)|(a & fs1 & t1 & t2 & H & H2 & ->)].
    + injection Hs as <-. step_cases H. split; [reflexivity|].
      eexists [_; _; _]. reflexivity.
    + apply IH in H2. destruct H2 as (-> & t0 & ->).
      split; [reflexivity|]. exists (t1 ++ t0).
      rewrite <- app_assoc. reflexivity.
Qed.

Lemma first_run_stop fr fs s fs' t :
  first_run zero_f fr fs = (Stop s, fs', t) ->
  exists u,
    predict zero_f ctxA fr fs = (Stop s, fs', u) /\
    t = Stdout (nl ++ prompt (params fr))%string :: u.
Proof.
  rewrite first_run_eq.
  destruct (predict zero_f ctxA fr fs) as [[[fr1|s1] fs1] t1];
    [discriminate|].
  intros H; injection H as <- <- <-. eauto.
Qed.

Lemma second_run_stop fr fs s fs' t :
  second_run zero_f fr fs = (Stop s, fs', t) ->
  predict zero_f ctxB fr fs = (Stop s, fs', t).
Proof.
  rewrite second_run_eq.
  destruct (predict zero_f ctxB fr fs) as [[[fr1|s1] fs1] t1];
    [discriminate|].
  intros H; injection H as <- <- <-. reflexivity.
Qed.

Lemma predict_eval_event h fr fs r fs' t h' toks np thr e :
  predict zero_f h fr fs = (r, fs', t) ->
  In (Eval h' toks np thr e) t ->
  n_past fr <= np /\
  (e <> 0 ->
   r = Stop (Exit 1) /\
   exists t0, t = t0 ++ [Eval h' toks np thr e; Stderr msg_evaluate]).
Proof. unfold predict, for_range. apply loop_eval_event. Qed.

(** At the checkpoint at least one position is filled, the one copied. *)
Lemma prologue_position argv fs fr fs' t :
  prologue argv fs = (Ret fr, fs', t) ->
  1 <= n_past fr /\ n_past_saved fr = n_past fr.
Proof.
  intros H. prologue_cases H. apply Z.ltb_ge in Htok. simpl.
  split; [lia|reflexivity].
Qed.

Lemma reload_position fr fs fr2 fs2 t2 :
  reload fr fs = (Ret fr2, fs2, t2) -> n_past fr2 = n_past_saved fr.
Proof. intros H. reload_cases H. reflexivity. Qed.

(** X2. A [llama_eval] of a generation step (any call at a position other
    than 0) that fails ends the run at once: [main] returns 1, and the trace
    ends with that call followed by the diagnostic "failed to evaluate", so
    the position is not advanced and nothing more is sampled or evaluated. *)
Theorem step_failure_stops argv fs r fs' tr h toks np thr e :
  main zero_f argv fs = (r, fs', tr) ->
  In (Eval h toks np thr e) tr ->
  np <> 0 ->
  e <> 0 ->
  r = Stop (Exit 1) /\
  exists t0, tr = t0 ++ [Eval h toks np thr e; Stderr msg_evaluate].
Proof.
  intros H Hin Hnp He. main_cases H.
  all: try (pose proof Hrel as Er; apply reload_events in Er).
  all: rewrite ?in_app_iff in Hin.
  all: repeat match type of Hin with
              | _ \/ _ => destruct Hin as [Hin|Hin]
              end.
  all: try absurd_in Hin.
  all: try (exfalso; prologue_cases Hpro; simpl in Hin;
            repeat (destruct Hin as [Hin|Hin]; try discriminate Hin);
            try contradiction; injection Hin as _ _ Hz _ _;
            symmetry in Hz; contradiction).
  all: try (apply first_run_ret in Hrun1; destruct Hrun1 as (u1 & Hrun1 & ->);
            simpl in Hin; destruct Hin as [Hin|Hin]; [discriminate Hin|];
            apply in_app_or in Hin; destruct Hin as [Hin|Hin];
            [|simpl in Hin; destruct Hin as [Hin|[]]; discriminate Hin];
            destruct (@predict_eval_event _ _ _ _ _ _ _ _ _ _ _ Hrun1 Hin) as [_ Hf];
            destruct (Hf He) as [Hr _]; discriminate Hr).
  all: try (apply second_run_ret in Hrun2;
            destruct Hrun2 as (u3 & Hrun2 & ->);
            apply in_app_or in Hin; destruct Hin as [Hin|Hin];
            [|simpl in Hin; destruct Hin as [Hin|[]]; discriminate Hin];
            destruct (@predict_eval_event _ _ _ _ _ _ _ _ _ _ _ Hrun2 Hin) as [_ Hf];
            destruct (Hf He) as [Hr _]; discriminate Hr).
  all: first
    [ apply second_run_stop in Hrun2;
      destruct (@predict_eval_event _ _ _ _ _ _ _ _ _ _ _ Hrun2 Hin)
        as [_ Hf];
      destruct (Hf He) as (Hr & u & ->); injection Hr as ->;
      split; [reflexivity|];
      exists (t0 ++ t1 ++ t2 ++ u); rewrite <- !app_assoc; reflexivity
    | apply first_run_stop in Hrun1; destruct Hrun1 as (u1 & Hrun1 & ->);
      simpl in Hin; destruct Hin as [Hin|Hin]; [discriminate Hin|];
      destruct (@predict_eval_event _ _ _ _ _ _ _ _ _ _ _ Hrun1 Hin)
        as [_ Hf];
      destruct (Hf He) as (Hr & u & ->); injection Hr as ->;
      split; [reflexivity|];
      exists (t0 ++ Stdout (nl ++ prompt (params fr0))%string :: u);
      rewrite <- !app_assoc; reflexivity ].
Qed.

(** ** Which tokens are evaluated *)

Lemma evaluated_reload h (t : list event) :
  Forall reload_event t -> evaluated h t = [].
Proof.
  induction 1 as [|e t He _ IH]; [reflexivity|].
  unfold evaluated in *. simpl. rewrite IH.
  destruct e; simpl in *; try reflexivity. contradiction.
Qed.

Lemma prologue_evaluated argv fs r fs' t :
  prologue argv fs = (r, fs', t) ->
  evaluated ctxB t = [] /\ (length (evaluated ctxA t) <= 1)%nat.
Proof.
  intros H. prologue_cases H; simpl; split; solve [reflexivity | lia].
Qed.

Lemma predict_evaluated h fr fs r fs' t h' :
  predict zero_f h fr fs = (r, fs', t) ->
  evaluated h' t = map (fun tok => [tok]) (sampled h' t).
Proof. unfold predict, for_range. apply loop_evaluated. Qed.

Lemma first_run_evaluated fr fs r fs' t h' :
  first_run zero_f fr fs = (r, fs', t) ->
  evaluated h' t = map (fun tok => [tok]) (sampled h' t).
Proof.
  rewrite first_run_eq.
  destruct (predict zero_f ctxA fr fs) as [[[fr1|s] fs1] t1] eqn:E;
    apply (predict_evaluated _ _ _ h') in E;
    intros H; injection H as <- <- <-; simpl;
    rewrite ?evaluated_app, ?sampled_app, ?map_app, E; simpl;
    rewrite ?app_nil_r; reflexivity.
Qed.

Lemma second_run_evaluated fr fs r fs' t h' :
  second_run zero_f fr fs = (r, fs', t) ->
  evaluated h' t = map (fun tok => [tok]) (sampled h' t).
Proof.
  rewrite second_run_eq.
  destruct (predict zero_f ctxB fr fs) as [[[fr1|s] fs1] t1] eqn:E;
    apply (predict_evaluated _ _ _ h') in E;
    intros H; injection H as <- <- <-;
    rewrite ?evaluated_app, ?sampled_app, ?map_app, E; simpl;
    rewrite ?app_nil_r; reflexivity.
Qed.

(** X10. In every run, whatever its outcome, the batches handed to
    [llama_eval] on the second context are exactly the tokens sampled on it,
    one token per call and in the order sampled; on the first context they
    are the same, after at most one earlier batch (the prompt).  So every
    sampled token is fed back to the engine, on the handle that sampled it,
    and nothing else is evaluated. *)
Theorem sampled_tokens_are_evaluated argv fs r fs' tr :
  main zero_f argv fs = (r, fs', tr) ->
  evaluated ctxB tr = map (fun tok => [tok]) (sampled ctxB tr) /\
  exists pre,
    (length pre <= 1)%nat /\
    evaluated ctxA tr = pre ++ map (fun tok => [tok]) (sampled ctxA tr).
Proof.
  intros H. main_cases H.
  all: pose proof Hpro as Ep; apply prologue_events in Ep.
  all: pose proof (prologue_evaluated _ _ Hpro) as [EB EA].
  all: try (pose proof Hrel as Er; apply reload_events in Er).
  all: try (pose proof (first_run_evaluated _ _ ctxA Hrun1) as A1;
            pose proof (first_run_evaluated _ _ ctxB Hrun1) as B1).
  all: try (pose proof (second_run_evaluated _ _ ctxA Hrun2) as A3;
            pose proof (second_run_evaluated _ _ ctxB Hrun2) as B3).
  all: rewrite ?evaluated_app, ?sampled_app, ?map_app.
  all: rewrite ?(sampled_prologue _ Ep), ?(sampled_reload _ Er),
         ?(evaluated_reload _ Er), ?EB.
  all: rewrite ?A1, ?B1, ?A3, ?B3.
  all: split; [reflexivity|].
  all: exists (evaluated ctxA t0); split; [exact EA|].
  all: simpl; rewrite ?app_nil_r; reflexivity.
Qed.

(** ** How [main] ends *)

Lemma predict_exit h fr fs code fs' t :
  predict zero_f h fr fs = (Stop (Exit code), fs', t) ->
  code = 1 /\ exists t0, t = t0 ++ [Stderr msg_evaluate].
Proof. unfold predict, for_range. apply loop_exit. Qed.

(** X4. The only value [main] returns at its end is 0, and the only exit
    code of an early return is 1.  An early return either follows a failed
    command-line parse, with nothing done at all (empty trace), or comes
    right after one of the four diagnostics: failed to tokenize, to
    evaluate, to validate the state size, to read the state. *)
Theorem exit_code_and_diagnostic argv fs r fs' tr :
  main zero_f argv fs = (r, fs', tr) ->
  (forall v, r = Ret v -> v = 0) /\
  (forall code, r = Stop (Exit code) ->
     code = 1 /\
     ((tr = [] /\ fst (gpt_params_parse argv initial_params) = false) \/
      exists tr0 msg,
        tr = tr0 ++ [Stderr msg] /\
        In msg [msg_tokenize; msg_evaluate; msg_state_size; msg_read_state])).
Proof.
  intros H. main_cases H.
  - split; [intros v Hv; injection Hv as <-; reflexivity|].
    intros code Hc. discriminate Hc.
  - split; [intros v Hv; discriminate Hv|].
    intros code Hc. injection Hc as ->.
    apply second_run_stop, predict_exit in Hrun2.
    destruct Hrun2 as (-> & u & ->). split; [reflexivity|]. right.
    exists (t0 ++ t1 ++ t2 ++ u), msg_evaluate.
    rewrite <- !app_assoc. simpl. tauto.
  - split; [intros v Hv; discriminate Hv|].
    intros code Hc.
    reload_cases Hrel; try discriminate Hc; injection Hc as <-;
      (split; [reflexivity|]); right.
    + eexists (t0 ++ t1 ++ [_; _; _; _]), msg_state_size.
      rewrite <- !app_assoc. simpl. tauto.
    + eexists (t0 ++ t1 ++ [_; _; _; _; _]), msg_read_state.
      rewrite <- !app_assoc. simpl. tauto.
  - split; [intros v Hv; discriminate Hv|].
    intros code Hc. injection Hc as ->.
    apply first_run_stop in Hrun1. destruct Hrun1 as (u1 & Hrun1 & ->).
    apply predict_exit in Hrun1. destruct Hrun1 as (-> & u & ->).
    split; [reflexivity|]. right.
    exists (t0 ++ Stdout (nl ++ prompt (params fr0))%string :: u),
      msg_evaluate.
    rewrite <- !app_assoc. simpl. tauto.
  - split; [intros v Hv; discriminate Hv|].
    intros code Hc.
    prologue_cases Hpro; try discriminate Hc; injection Hc as <-;
      (split; [reflexivity|]).
    + left. apply negb_true_iff in Hparse. tauto.
    + right. eexists [_; _; _], msg_tokenize. simpl. tauto.
Qed.

(** ** A context that could not be created, sizes below zero *)






Lemma default_n_predict_sizes ps :
  repeat_last_n (default_n_predict ps) = repeat_last_n ps /\
  n_ctx (default_n_predict ps) = n_ctx ps.
Proof.
  unfold default_n_predict. destruct (n_predict ps <? 0); split; reflexivity.
Qed.

(** X9. A negative repeat_last_n or a negative context length on the
    command line ends the run in an uncaught [std::length_error]: the vector
    of that size cannot be built.  [main] has then printed the build line
    and, for the context length, created the context; it has tokenized,
    evaluated and written nothing. *)
Theorem negative_size_aborts argv fs r fs' tr :
  main zero_f argv fs = (r, fs', tr) ->
  fst (gpt_params_parse argv initial_params) = true ->
  repeat_last_n (snd (gpt_params_parse argv initial_params)) < 0 \/
  n_ctx (snd (gpt_params_parse argv initial_params)) < 0 ->
  r = Stop Abort /\
  (tr = [Stderr build_line] \/
   exists ok, tr = [Stderr build_line; InitFromFile ctxA ok]).
Proof.
  intros H Hok Hneg.
  destruct (default_n_predict_sizes
              (snd (gpt_params_parse argv initial_params))) as [Er En].
  rewrite <- Er, <- En in Hneg.
  main_cases H; prologue_cases Hpro.
  all: try (rewrite Hok in Hparse; discriminate Hparse).
  all: try apply Z.ltb_ge in Hrep.
  all: try apply Z.ltb_ge in Hnctx.
  all: try (exfalso; lia).
  - split; [reflexivity|]. left. reflexivity.
  - split; [reflexivity|]. right. eexists. reflexivity.
Qed.

(** ** The state file *)

Lemma file_ops_run h (t : list event) :
  Forall (run_event h) t -> file_ops t = [].
Proof.
  induction 1 as [|e t He _ IH]; [reflexivity|].
  unfold file_ops in *. simpl. rewrite IH.
  destruct e; simpl in *; try reflexivity; contradiction.
Qed.

(** X5. The stdio calls of a run are a prefix of: open for writing,
    write, close, open for reading, read, close.  So the file is written
    once at most and read once at most, the write comes first and is closed
    before the file is opened again; in a run that returns 0 the sequence is
    complete. *)
Theorem file_protocol argv fs r fs' tr :
  main zero_f argv fs = (r, fs', tr) ->
  exists rest,
    file_ops tr ++ rest
    = [op_open "wb"; op_write; op_close; op_open "rb"; op_read; op_close] /\
    (r = Ret 0 -> rest = []).
Proof.
  intros H. main_cases H.
  all: try (apply first_run_any in Hrun1; destruct Hrun1 as [_ E1];
            apply file_ops_run in E1).
  all: try (apply second_run_any in Hrun2; destruct Hrun2 as [_ E2];
            apply file_ops_run in E2).
  all: try reload_cases Hrel.
  all: prologue_cases Hpro.
  all: rewrite ?file_ops_app, ?E1, ?E2; simpl.
  all: eexists; split; [reflexivity|].
  all: intros Hr; solve [reflexivity | discriminate Hr].
Qed.

(** X6. Whenever [main] writes to the state file, the bytes it hands to
    [fwrite] are the buffer [llama_copy_state_data] has just filled from the
    first context, and their number is the state size queried before.  The
    capture and the write come after the prompt evaluation and before any
    token is sampled, and the file is closed right after the write. *)
Theorem written_state_is_captured argv fs r fs' tr bytes n :
  main zero_f argv fs = (r, fs', tr) ->
  In (Fwrite bytes n) tr ->
  exists text n_max k toks thr e rest,
    tr = [Stderr build_line; InitFromFile ctxA true;
          Tokenize text n_max k; Eval ctxA toks 0 thr e;
          GetStateSize ctxA (N.of_nat (length bytes));
          Fopen state_file "wb" true; CopyStateData ctxA bytes;
          Fwrite bytes n; Fclose] ++ rest.
Proof.
  intros H Hin. main_cases H.
  all: try (pose proof Hrun1 as E1; apply first_run_any in E1;
            destruct E1 as [_ E1]).
  all: try (pose proof Hrel as Er; apply reload_events in Er).
  all: try (pose proof Hrun2 as E2; apply second_run_any in E2;
            destruct E2 as [_ E2]).
  all: rewrite ?in_app_iff in Hin.
  all: repeat match type of Hin with
              | _ \/ _ => destruct Hin as [Hin|Hin]
              end.
  all: try absurd_in Hin.
  all: prologue_cases Hpro.
  all: simpl in Hin;
    repeat (destruct Hin as [Hin|Hin]; try discriminate Hin);
    try contradiction.
  all: injection Hin as <- <-.
  all: rewrite llama_copy_state_data_length.
  all: eexists _, _, _, _, _, _, _; simpl; reflexivity.
Qed.

(** ** The buffer that is restored *)

(** All a completed prologue leaves behind. *)
Lemma prologue_ret_full argv fs fr fs0 t0 :
  prologue argv fs = (Ret fr, fs0, t0) ->
  exists c1 fs1 fp fs2 n,
    ctx fr = Some c1 /\
    state_size fr = llama_get_state_size c1 /\
    state_mem fr = llama_copy_state_data c1 /\
    fopen fs state_file "wb" = (fs1, Some fp) /\
    fwrite fs1 fp (llama_copy_state_data c1) = (fs2, n) /\
    fs0 = fclose fs2 fp /\
    In (GetStateSize ctxA (llama_get_state_size c1)) t0 /\
    In (CopyStateData ctxA (llama_copy_state_data c1)) t0 /\
    last_n_tokens_data_saved fr = last_n_tokens_data fr /\
    n_past_saved fr = n_past fr /\
    stdout_of t0 = [] /\
    params fr = default_n_predict (snd (gpt_params_parse argv initial_params)).
Proof.
  intros H. prologue_cases H. simpl.
  eexists _, _, _, _, _. repeat (split; [reflexivity|]).
  split; [apply surjective_pairing|].
  split; [reflexivity|].
  split; [tauto|]. split; [tauto|]. repeat split.
Qed.

(** All a completed reload did. *)
Lemma reload_ret_full fr fs fr2 fs2 t2 :
  reload fr fs = (Ret fr2, fs2, t2) ->
  exists c2 fs1 fp fs3 rd,
    state_size fr = llama_get_state_size c2 /\
    fopen fs state_file "rb" = (fs1, Some fp) /\
    fread fs1 fp (state_size fr) = (fs3, rd) /\
    N.of_nat (length rd) = state_size fr /\
    fr2 = restore_tokens
            (loaded_frame c2 (rd ++ skipn (length rd) (state_mem fr)) fr) /\
    t2 = [Free ctxA; InitFromFile ctxB true; Fopen state_file "rb" true;
          GetStateSize ctxB (llama_get_state_size c2);
          Fread (state_size fr) (state_size fr);
          SetStateData ctxB (rd ++ skipn (length rd) (state_mem fr));
          Fclose].
Proof.
  intros H. reload_cases H.
  apply negb_false_iff, N.eqb_eq in Hsize, Hlen.
  eexists _, _, _, _, _.
  split; [exact Hsize|]. split; [reflexivity|]. split; [exact Hread|].
  split; [exact Hlen|]. split; [reflexivity|].
  simpl. rewrite Hlen. reflexivity.
Qed.

(** The buffer of a full read replaces the captured buffer entirely. *)
Lemma full_read_buffer (rd mem : list byte) :
  length rd = length mem -> rd ++ skipn (length rd) mem = rd.
Proof.
  intros H. rewrite H, skipn_all. apply app_nil_r.
Qed.

(** X7. [llama_set_state_data] is only ever called on the second context,
    and only with a buffer whose length is the state size that both contexts
    reported and that [fread] delivered in full. *)
Theorem restore_needs_full_buffer argv fs r fs' tr h bytes :
  main zero_f argv fs = (r, fs', tr) ->
  In (SetStateData h bytes) tr ->
  h = ctxB /\
  In (GetStateSize ctxA (N.of_nat (length bytes))) tr /\
  In (GetStateSize ctxB (N.of_nat (length bytes))) tr /\
  In (Fread (N.of_nat (length bytes)) (N.of_nat (length bytes))) tr.
Proof.
  intros H Hin. main_cases H.
  all: pose proof Hpro as Ep; apply prologue_events in Ep.
  all: try (pose proof Hrun1 as E1; apply first_run_any in E1;
            destruct E1 as [_ E1]).
  all: try (pose proof Hrel as Er; apply reload_events in Er).
  all: try (pose proof Hrun2 as E2; apply second_run_any in E2;
            destruct E2 as [_ E2]).
  all: rewrite ?in_app_iff in Hin.
  all: locate Hin.
  all: pose proof (@in_forall _ _ _ _ Er Hin) as Hh; simpl in Hh; subst h.
  all: try (exfalso; eapply reload_stop_no_restore; eassumption).
  all: apply prologue_ret_full in Hpro.
  all: destruct Hpro as (c1 & fsw & fpw & fsw2 & nw & Hc1 & Hsz & Hmem & _
                         & _ & _ & HinA & _).
  all: apply first_run_frozen in Hrun1.
  all: destruct Hrun1 as (_ & _ & _ & _ & Hsz1 & Hmem1 & _).
  all: apply reload_ret_full in Hrel.
  all: destruct Hrel as (c2 & fsr & fpr & fsr2 & rd & Hsize & _ & _
                         & Hrdlen & _ & ->).
  all: assert (Hl : length rd = length (state_mem fr1))
         by (apply Nat2N.inj;
             rewrite Hrdlen, Hsz1, Hsz, Hmem1, Hmem;
             symmetry; apply llama_copy_state_data_length).
  all: rewrite (full_read_buffer _ _ Hl) in *.
  all: simpl in Hin;
    repeat (destruct Hin as [Hin|Hin]; try discriminate Hin);
    try contradiction.
  all: injection Hin as <-.
  all: assert (Ha : N.of_nat (length rd) = llama_get_state_size c1)
         by congruence.
  all: assert (Hb : llama_get_state_size c2 = llama_get_state_size c1)
         by congruence.
  all: assert (Hc : state_size fr1 = llama_get_state_size c1)
         by congruence.
  all: rewrite Ha, Hb, Hc.
  all: split; [reflexivity|].
  all: rewrite !in_app_iff.
  all: split; [left; exact HinA|].
  all: split; right; right; simpl; tauto.
Qed.

(** X11. When the storage keeps what is written to it, the buffer handed
    to [llama_set_state_data] is, byte for byte, the buffer that
    [llama_copy_state_data] filled from the first context: the state makes
    the round trip through the file unchanged. *)
Theorem persisted_state_round_trip argv fs r fs' tr h bytes :
  storage_contract ->
  main zero_f argv fs = (r, fs', tr) ->
  In (SetStateData h bytes) tr ->
  In (CopyStateData ctxA bytes) tr.
Proof.
  intros Hst H Hin. main_cases H.
  all: pose proof Hpro as Ep; apply prologue_events in Ep.
  all: try (pose proof Hrun1 as E1; apply first_run_any in E1;
            destruct E1 as [Hfs E1]).
  all: try (pose proof Hrel as Er; apply reload_events in Er).
  all: try (pose proof Hrun2 as E2; apply second_run_any in E2;
            destruct E2 as [_ E2]).
  all: rewrite ?in_app_iff in Hin.
  all: locate Hin.
  all: pose proof (@in_forall _ _ _ _ Er Hin) as Hh; simpl in Hh; subst h.
  all: try (exfalso; eapply reload_stop_no_restore; eassumption).
  all: subst fs1.
  all: apply prologue_ret_full in Hpro.
  all: destruct Hpro as (c1 & fsw & fpw & fsw2 & nw & Hc1 & Hsz & Hmem
                         & Hopenw & Hwrite & -> & _ & HinC & _).
  all: apply first_run_frozen in Hrun1.
  all: destruct Hrun1 as (_ & _ & _ & _ & Hsz1 & Hmem1 & _).
  all: apply reload_ret_full in Hrel.
  all: destruct Hrel as (c2 & fsr & fpr & fsr2 & rd & Hsize & Hopenr & Hread
                         & Hrdlen & _ & ->).
  all: rewrite Hsz1, Hsz in Hread, Hrdlen.
  all: rewrite <- llama_copy_state_data_length in Hread, Hrdlen.
  all: apply Nat2N.inj in Hrdlen.
  all: pose proof (Hst _ _ _ _ _ _ _ _ _ _ Hopenw Hwrite Hopenr Hread Hrdlen)
         as Hbytes.
  all: rewrite Hmem1, Hmem, Hbytes, skipn_all, app_nil_r in Hin.
  all: simpl in Hin;
    repeat (destruct Hin as [Hin|Hin]; try discriminate Hin);
    try contradiction.
  all: injection Hin as <-.
  all: rewrite !in_app_iff; left; exact HinC.
Qed.

(** ** The token history and the position *)

Lemma predict_keeps_history h fr fs fr' fs' t :
  predict zero_f h fr fs = (Ret fr', fs', t) ->
  history_tracks_position fr -> history_tracks_position fr'.
Proof.
  intros H Hi. apply predict_ret in H.
  destruct H as (Hfz & Hl & Hn & Hlen & _).
  destruct Hfz as (Hp & _). unfold history_tracks_position in *.
  rewrite Hl, Hn, Hp, length_app, Hlen. lia.
Qed.

Lemma prologue_history argv fs fr fs' t :
  prologue argv fs = (Ret fr, fs', t) -> history_tracks_position fr.
Proof.
  intros H. prologue_cases H.
  apply Z.ltb_ge in Hrep, Htok.
  unfold history_tracks_position. simpl.
  rewrite length_app, repeat_length, Nat2Z.inj_add, Z2Nat.id by assumption.
  rewrite prompt_length by assumption. reflexivity.
Qed.

(** X8. The token history is never truncated and grows in step with the
    position: at the checkpoint, after the first run, after the reload and
    after the second run, its length is repeat_last_n, for the zeros it
    starts with, plus the position [n_past]. *)
Theorem history_tracks_position_kept argv fs fr0 fs0 t0 fr1 fs1 t1
  fr2 fs2 t2 fr3 fs3 t3 :
  prologue argv fs = (Ret fr0, fs0, t0) ->
  first_run zero_f fr0 fs0 = (Ret fr1, fs1, t1) ->
  reload fr1 fs1 = (Ret fr2, fs2, t2) ->
  second_run zero_f fr2 fs2 = (Ret fr3, fs3, t3) ->
  history_tracks_position fr0 /\ history_tracks_position fr1 /\
  history_tracks_position fr2 /\ history_tracks_position fr3.
Proof.
  intros Hpro Hrun1 Hrel Hrun2.
  assert (I0 : history_tracks_position fr0) by (eapply prologue_history; eassumption).
  apply prologue_ret_full in Hpro.
  destruct Hpro as (c1 & _ & _ & _ & _ & _ & _ & _ & _ & _ & _ & _ & _ & Hsl
                    & Hsn & _).
  apply first_run_ret in Hrun1. destruct Hrun1 as (u1 & Hrun1 & _).
  assert (I1 : history_tracks_position fr1) by (eapply predict_keeps_history; eassumption).
  apply predict_ret in Hrun1. destruct Hrun1 as (Hfz & _).
  destruct Hfz as (Hp1 & _ & _ & _ & _ & _ & Hsl1 & Hsn1 & _).
  apply reload_ret_full in Hrel.
  destruct Hrel as (c2 & _ & _ & _ & rd & _ & _ & _ & _ & -> & _).
  assert (I2 : history_tracks_position
                 (restore_tokens
                    (loaded_frame c2
                       (rd ++ skipn (length rd) (state_mem fr1)) fr1))).
  { unfold history_tracks_position in *. simpl.
    rewrite Hsl1, Hsn1, Hsl, Hsn, Hp1. exact I0. }
  apply second_run_ret in Hrun2. destruct Hrun2 as (u3 & Hrun2 & _).
  assert (I3 : history_tracks_position fr3) by (eapply predict_keeps_history; eassumption).
  repeat split; assumption.
Qed.

End Properties.

(** * The small engine: its contract, and concrete runs *)

Module ToyFacts.

Import Toy.

(** Two toy contexts are indistinguishable when cache and generator state
    agree; the count of cells in use is bookkeeping. *)
Definition same (c c' : context) : Prop :=
  cache c = cache c' /\ rng c = rng c'.

Lemma engine_ok cfg :
  restore_works cfg = true -> size_by_content cfg = false ->
  @engine_contract Z (lib cfg) same.
Proof.
  intros Hr Hs. constructor; simpl.
  - reflexivity.
  - intros c c' i [Hc Hg] _. unfold logits, mix. rewrite Hc, Hg.
    reflexivity.
  - intros c c' cands [Hc Hg]. unfold sample, same. simpl.
    rewrite Hc, Hg. repeat split.
  - intros c c' toks np nt [Hc Hg]. unfold eval, same. rewrite Hc.
    destruct ((np <? 0) || _ || _); simpl; rewrite ?Hc, ?Hg; repeat split.
  - intros c c2 _. unfold set_state, state_bytes, same. rewrite Hr, Hs.
    split; reflexivity.
Qed.

Lemma storage_ok : @storage_contract stdio.
Proof.
  intros d bytes d1 fp d2 n d3 fp' d4 bytes' Hw Hwr Ho Hrd Hlen.
  simpl in *. unfold open in Hw. simpl in Hw.
  destruct (can_write d); [|discriminate].
  injection Hw as <- _. unfold write in Hwr. simpl in Hwr.
  injection Hwr as <- _. unfold open in Ho. simpl in Ho.
  destruct (can_read d); [|discriminate].
  injection Ho as <- _. unfold read in Hrd. simpl in Hrd.
  injection Hrd as _ <-.
  rewrite Nat2N.id, firstn_firstn in *.
  rewrite length_firstn in Hlen.
  apply firstn_all2. lia.
Qed.

End ToyFacts.

(** ** Concrete runs *)

Import Toy.

(** Finding an event in a computed trace. *)
Ltac find_event :=
  vm_compute; repeat (first [left; reflexivity | right]).

Lemma restore_determinism_witness :
  outcome (good 32 4) good_disk = Ret 0 /\
  sampled ctxB (trace (good 32 4) good_disk)
  = sampled ctxA (trace (good 32 4) good_disk) /\
  length (sampled ctxA (trace (good 32 4) good_disk))
  = Z.to_nat (@effective_n_predict Z (lib (good 32 4)) []).
Proof.
  apply (@restore_determinism Z 0 (lib (good 32 4)) stdio ToyFacts.same
           (ToyFacts.engine_ok (good 32 4) eq_refl eq_refl)
           [] good_disk (outcome (good 32 4) good_disk)
           (disk_after (good 32 4) good_disk)
           (trace (good 32 4) good_disk)
           (restored (good 32 4) good_disk)
           ToyFacts.storage_ok).
  - vm_compute. reflexivity.
  - find_event.
Defined.

Lemma size_mismatch_rejected_witness :
  outcome drift good_disk = Stop (Exit 1) /\
  (exists tr0,
     trace drift good_disk
     = tr0 ++ [GetStateSize ctxB 1; Stderr msg_state_size]) /\
  Forall (fun e => ~ is_fread e /\ ~ is_set_state e) (trace drift good_disk).
Proof.
  apply (@size_mismatch_rejected Z 0 (lib drift) stdio [] good_disk
           (outcome drift good_disk) (disk_after drift good_disk)
           (trace drift good_disk) 21%N 1%N).
  - vm_compute. reflexivity.
  - find_event.
  - find_event.
  - discriminate.
Defined.

Lemma short_read_rejected_witness :
  outcome (good 32 2) full_disk = Stop (Exit 1) /\
  In (GetStateSize ctxB 33) (trace (good 32 2) full_disk) /\
  (exists tr0,
     trace (good 32 2) full_disk
     = tr0 ++ [Fread 33 10; Stderr msg_read_state]) /\
  Forall (fun e => ~ is_set_state e) (trace (good 32 2) full_disk).
Proof.
  apply (@short_read_rejected Z 0 (lib (good 32 2)) stdio [] full_disk
           (outcome (good 32 2) full_disk) (disk_after (good 32 2) full_disk)
           (trace (good 32 2) full_disk) 33%N 10%N).
  - vm_compute. reflexivity.
  - find_event.
  - reflexivity.
Defined.

(** C2, counterexample.  On the engine whose restore ignores the buffer
    the two runs sample different tokens (S1 = 2 1 3 1, S2 = 0 1 3 1), and
    [main] ends exactly as on the sound engine, where they agree: it returns
    0 and stderr holds the build line only. *)
Lemma outcome_ignores_divergence :
  sampled ctxA (trace broken good_disk) = [2; 1; 3; 1] /\
  sampled ctxB (trace broken good_disk) = [0; 1; 3; 1] /\
  sampled ctxA (trace (good 32 4) good_disk)
  = sampled ctxB (trace (good 32 4) good_disk) /\
  outcome broken good_disk = Ret 0 /\
  outcome (good 32 4) good_disk = Ret 0 /\
  stderr_of (trace broken good_disk)
  = stderr_of (trace (good 32 4) good_disk).
Proof. vm_compute. repeat split. Qed.

Lemma runs_not_compared_witness :
  @main Z 0 (lib broken) stdio [] good_disk
  = (Ret 0, snd (fst (run3 broken good_disk)),
     snd (run0 broken good_disk) ++ snd (run1 broken good_disk)
     ++ snd (run2 broken good_disk) ++ snd (run3 broken good_disk)) /\
  stderr_of (snd (run0 broken good_disk) ++ snd (run1 broken good_disk)
             ++ snd (run2 broken good_disk) ++ snd (run3 broken good_disk))
  = [@build_line Z (lib broken)] /\
  sampled ctxA (snd (run0 broken good_disk) ++ snd (run1 broken good_disk)
                ++ snd (run2 broken good_disk) ++ snd (run3 broken good_disk))
  = sampled ctxA (snd (run1 broken good_disk)) /\
  sampled ctxB (snd (run0 broken good_disk) ++ snd (run1 broken good_disk)
                ++ snd (run2 broken good_disk) ++ snd (run3 broken good_disk))
  = sampled ctxB (snd (run3 broken good_disk)).
Proof.
  apply (@runs_not_compared Z 0 (lib broken) stdio [] good_disk
           (frame_of broken (run0 broken good_disk))
           (snd (fst (run0 broken good_disk)))
           (snd (run0 broken good_disk))
           (frame_of broken (run1 broken good_disk))
           (snd (fst (run1 broken good_disk)))
           (snd (run1 broken good_disk))
           (frame_of broken (run2 broken good_disk))
           (snd (fst (run2 broken good_disk)))
           (snd (run2 broken good_disk))
           (frame_of broken (run3 broken good_disk))
           (snd (fst (run3 broken good_disk)))
           (snd (run3 broken good_disk))).
  - vm_compute. reflexivity.
  - vm_compute. reflexivity.
  - vm_compute. reflexivity.
  - vm_compute. reflexivity.
Defined.

(** C5, the code at the failing inputs.  When the state file cannot be
    opened for writing, [main] hands the null stream to [fwrite]: the run
    ends in undefined behaviour, with no diagnostic.  When the write stores
    10 of the 33 bytes, [main] carries on: it closes the file and makes the
    whole first run; the program stops only later, at the read. *)
Lemma io_failures_not_detected :
  outcome (good 32 2) readonly_disk = Stop Crash /\
  stderr_of (trace (good 32 2) readonly_disk)
  = [@build_line Z (lib (good 32 2))] /\
  (exists t1 t2 bytes,
     trace (good 32 2) full_disk
     = t1 ++ [Fwrite bytes 10; Fclose] ++ t2 /\
     length bytes = 33%nat /\
     sampled ctxA t2 = [2; 1] /\
     stderr_of t2 = [msg_read_state]).
Proof.
  split; [vm_compute; reflexivity|].
  split; [vm_compute; reflexivity|].
  eexists (firstn 7 (trace (good 32 2) full_disk)), _, _.
  vm_compute. repeat split.
Qed.

(** C6, the code at the failing input.  The engine rejects the prompt
    batch (20 tokens, at most 4 allowed): the prompt [llama_eval] returns 1,
    and [main] goes on all the same: it advances the position to 20,
    snapshots, and makes both runs from position 20, returning 0. *)
Lemma prompt_eval_failure_ignored :
  outcome small_batch good_disk = Ret 0 /\
  (exists toks rest,
     trace small_batch good_disk
     = [Stderr (@build_line Z (lib small_batch)); InitFromFile ctxA true;
        Tokenize "The quick brown fox" 32 20; Eval ctxA toks 0 4 1] ++ rest) /\
  evals_of (trace small_batch good_disk)
  = [(20, 0); (1, 20); (1, 21); (1, 20); (1, 21)] /\
  stderr_of (trace small_batch good_disk)
  = [@build_line Z (lib small_batch)].
Proof.
  split; [vm_compute; reflexivity|].
  split; [eexists _, _; vm_compute; reflexivity|].
  split; vm_compute; reflexivity.
Qed.

Lemma candidates_cover_vocabulary_witness :
  0 <= 8 /\
  exists arr,
    @build_candidates Z 0 stdio (logits fresh) 8 good_disk
    = (Ret arr, good_disk, []) /\
    Z.of_nat (length (data arr)) = 8 /\
    size arr = 8%N /\
    nth_error (data arr) 3
    = Some {| id := 3; logit := logits fresh 3; p := 0 |}.
Proof.
  split; [lia|].
  destruct (@candidates_cover_vocabulary Z 0 (lib (good 32 4)) stdio
              (logits fresh) 8 good_disk)
    as (arr & H1 & H2 & H3 & _ & H5 & _); [lia|].
  exists arr. repeat split; try assumption.
  apply (H5 3). lia.
Defined.

Lemma history_copy_independent_witness :
  last_n_tokens_data (frame_of (good 32 4) (run1 (good 32 4) good_disk))
  = last_n_tokens_data (frame_of (good 32 4) (run0 (good 32 4) good_disk))
    ++ [2; 1; 3; 1] /\
  last_n_tokens_data_saved (frame_of (good 32 4) (run1 (good 32 4) good_disk))
  = last_n_tokens_data (frame_of (good 32 4) (run0 (good 32 4) good_disk)) /\
  last_n_tokens_data (frame_of (good 32 4) (run2 (good 32 4) good_disk))
  = last_n_tokens_data (frame_of (good 32 4) (run0 (good 32 4) good_disk)) /\
  n_past (frame_of (good 32 4) (run2 (good 32 4) good_disk)) = 20.
Proof.
  destruct (@history_copy_independent Z 0 (lib (good 32 4)) stdio
              (frame_of (good 32 4) (run0 (good 32 4) good_disk))
              (snd (fst (run0 (good 32 4) good_disk)))
              (frame_of (good 32 4) (run1 (good 32 4) good_disk))
              (snd (fst (run1 (good 32 4) good_disk)))
              (snd (run1 (good 32 4) good_disk))
              (frame_of (good 32 4) (run2 (good 32 4) good_disk))
              (snd (fst (run2 (good 32 4) good_disk)))
              (snd (run2 (good 32 4) good_disk)))
    as (_ & _ & H3 & _ & H5 & _ & H7 & H8 & _).
  - vm_compute. reflexivity.
  - vm_compute. reflexivity.
  - repeat split; assumption.
Defined.

Lemma tokenize_failure_stops_witness :
  outcome (good 8 2) good_disk = Stop (Exit 1) /\
  trace (good 8 2) good_disk
  = [Stderr (@build_line Z (lib (good 8 2))); InitFromFile ctxA true;
     Tokenize "The quick brown fox" 8 (-20); Stderr msg_tokenize].
Proof.
  destruct (@tokenize_failure_stops Z 0 (lib (good 8 2)) stdio [] good_disk
              (outcome (good 8 2) good_disk)
              (disk_after (good 8 2) good_disk)
              (trace (good 8 2) good_disk)
              (fst (fst (run_prompt (good 8 2) good_disk)))
              (snd (fst (run_prompt (good 8 2) good_disk)))
              (snd (run_prompt (good 8 2) good_disk))
              "The quick brown fox" 8 (-20))
    as [H _].
  - vm_compute. reflexivity.
  - vm_compute. reflexivity.
  - find_event.
  - apply H. lia.
Defined.

Lemma n_predict_default_and_zero_witness :
  @effective_n_predict Z (lib (good 32 0)) [] = 0 /\
  outcome (good 32 0) good_disk = Ret 0 /\
  sampled ctxA (trace (good 32 0) good_disk) = [] /\
  sampled ctxB (trace (good 32 0) good_disk) = [].
Proof.
  destruct (@n_predict_default_and_zero Z 0 (lib (good 32 0)) stdio []
              good_disk
              (outcome (good 32 0) good_disk)
              (disk_after (good 32 0) good_disk)
              (trace (good 32 0) good_disk))
    as (_ & _ & H).
  - vm_compute. reflexivity.
  - destruct (H eq_refl) as (HA & HB & Hrest).
    destruct (Hrest (frame_of (good 32 0) (run0 (good 32 0) good_disk))
                (snd (fst (run0 (good 32 0) good_disk)))
                (snd (run0 (good 32 0) good_disk))
                (frame_of (good 32 0) (run2 (good 32 0) good_disk))
                (snd (fst (run2 (good 32 0) good_disk)))
                (snd (run2 (good 32 0) good_disk)))
      as (Hr & _).
    + vm_compute. reflexivity.
    + vm_compute. reflexivity.
    + repeat split; assumption.
Defined.

(** ** Concrete runs for the further properties *)

Lemma position_discipline_witness :
  exists n,
    1 <= n /\
    let steps := map (fun k => (1, n + Z.of_nat k))
                     (seq 0 (Z.to_nat
                               (@effective_n_predict Z (lib (good 32 4)) [])))
    in evals_of (trace (good 32 4) good_disk) = (n, 0) :: steps ++ steps.
Proof.
  apply (@position_discipline Z 0 (lib (good 32 4)) stdio [] good_disk
           (disk_after (good 32 4) good_disk) (trace (good 32 4) good_disk)).
  vm_compute. reflexivity.
Defined.

(** The context has 21 cells and the prompt fills 20: the second step of
    the first run, at position 21, is rejected. *)
Lemma step_failure_stops_witness :
  outcome (good 21 3) good_disk = Stop (Exit 1) /\
  exists t0,
    trace (good 21 3) good_disk
    = t0 ++ [Eval ctxA [6] 21 4 1; Stderr msg_evaluate].
Proof.
  apply (@step_failure_stops Z 0 (lib (good 21 3)) stdio [] good_disk
           (outcome (good 21 3) good_disk) (disk_after (good 21 3) good_disk)
           (trace (good 21 3) good_disk) ctxA [6] 21 4 1).
  - vm_compute. reflexivity.
  - find_event.
  - discriminate.
  - discriminate.
Defined.


Lemma exit_code_and_diagnostic_witness :
  (forall v, outcome drift good_disk = Ret v -> v = 0) /\
  (forall code, outcome drift good_disk = Stop (Exit code) ->
     code = 1 /\
     ((trace drift good_disk = [] /\
       fst (@gpt_params_parse Z (lib drift) []
              (@initial_params Z (lib drift))) = false) \/
      exists tr0 msg,
        trace drift good_disk = tr0 ++ [Stderr msg] /\
        In msg [msg_tokenize; msg_evaluate; msg_state_size; msg_read_state])).
Proof.
  apply (@exit_code_and_diagnostic Z 0 (lib drift) stdio [] good_disk
           (outcome drift good_disk) (disk_after drift good_disk)
           (trace drift good_disk)).
  vm_compute. reflexivity.
Defined.

Lemma file_protocol_witness :
  exists rest,
    file_ops (trace (good 32 2) good_disk) ++ rest
    = [op_open "wb"; op_write; op_close; op_open "rb"; op_read; op_close] /\
    (outcome (good 32 2) good_disk = Ret 0 -> rest = []).
Proof.
  apply (@file_protocol Z 0 (lib (good 32 2)) stdio [] good_disk
           (outcome (good 32 2) good_disk) (disk_after (good 32 2) good_disk)
           (trace (good 32 2) good_disk)).
  vm_compute. reflexivity.
Defined.

Lemma written_state_is_captured_witness :
  exists text n_max k toks thr e rest,
    trace (good 32 2) good_disk
    = [Stderr (@build_line Z (lib (good 32 2))); InitFromFile ctxA true;
       Tokenize text n_max k; Eval ctxA toks 0 thr e;
       GetStateSize ctxA
         (N.of_nat (length (restored (good 32 2) good_disk)));
       Fopen state_file "wb" true;
       CopyStateData ctxA (restored (good 32 2) good_disk);
       Fwrite (restored (good 32 2) good_disk) 33; Fclose] ++ rest.
Proof.
  apply (@written_state_is_captured Z 0 (lib (good 32 2)) stdio [] good_disk
           (outcome (good 32 2) good_disk) (disk_after (good 32 2) good_disk)
           (trace (good 32 2) good_disk)).
  - vm_compute. reflexivity.
  - find_event.
Defined.

Lemma restore_needs_full_buffer_witness :
  ctxB = ctxB /\
  In (GetStateSize ctxA (N.of_nat (length (restored (good 32 2) good_disk))))
     (trace (good 32 2) good_disk) /\
  In (GetStateSize ctxB (N.of_nat (length (restored (good 32 2) good_disk))))
     (trace (good 32 2) good_disk) /\
  In (Fread (N.of_nat (length (restored (good 32 2) good_disk)))
            (N.of_nat (length (restored (good 32 2) good_disk))))
     (trace (good 32 2) good_disk).
Proof.
  apply (@restore_needs_full_buffer Z 0 (lib (good 32 2)) stdio [] good_disk
           (outcome (good 32 2) good_disk) (disk_after (good 32 2) good_disk)
           (trace (good 32 2) good_disk)).
  - vm_compute. reflexivity.
  - find_event.
Defined.

Lemma history_tracks_position_kept_witness :
  history_tracks_position (frame_of (good 32 4) (run0 (good 32 4) good_disk))
  /\
  history_tracks_position (frame_of (good 32 4) (run1 (good 32 4) good_disk))
  /\
  history_tracks_position (frame_of (good 32 4) (run2 (good 32 4) good_disk))
  /\
  history_tracks_position (frame_of (good 32 4) (run3 (good 32 4) good_disk)).
Proof.
  apply (@history_tracks_position_kept Z 0 (lib (good 32 4)) stdio []
           good_disk
           (frame_of (good 32 4) (run0 (good 32 4) good_disk))
           (snd (fst (run0 (good 32 4) good_disk)))
           (snd (run0 (good 32 4) good_disk))
           (frame_of (good 32 4) (run1 (good 32 4) good_disk))
           (snd (fst (run1 (good 32 4) good_disk)))
           (snd (run1 (good 32 4) good_disk))
           (frame_of (good 32 4) (run2 (good 32 4) good_disk))
           (snd (fst (run2 (good 32 4) good_disk)))
           (snd (run2 (good 32 4) good_disk))
           (frame_of (good 32 4) (run3 (good 32 4) good_disk))
           (snd (fst (run3 (good 32 4) good_disk)))
           (snd (run3 (good 32 4) good_disk))).
  - vm_compute. reflexivity.
  - vm_compute. reflexivity.
  - vm_compute. reflexivity.
  - vm_compute. reflexivity.
Defined.

(** The command line asks for a context of length -1. *)
Lemma negative_size_aborts_witness :
  outcome (good (-1) 2) good_disk = Stop Abort /\
  (trace (good (-1) 2) good_disk
   = [Stderr (@build_line Z (lib (good (-1) 2)))] \/
   exists ok,
     trace (good (-1) 2) good_disk
     = [Stderr (@build_line Z (lib (good (-1) 2))); InitFromFile ctxA ok]).
Proof.
  apply (@negative_size_aborts Z 0 (lib (good (-1) 2)) stdio [] good_disk
           (outcome (good (-1) 2) good_disk)
           (disk_after (good (-1) 2) good_disk)
           (trace (good (-1) 2) good_disk)).
  - vm_compute. reflexivity.
  - vm_compute. reflexivity.
  - right. vm_compute. reflexivity.
Defined.

Lemma sampled_tokens_are_evaluated_witness :
  evaluated ctxB (trace (good 32 2) good_disk)
  = map (fun tok => [tok]) (sampled ctxB (trace (good 32 2) good_disk)) /\
  exists pre,
    (length pre <= 1)%nat /\
    evaluated ctxA (trace (good 32 2) good_disk)
    = pre ++ map (fun tok => [tok])
               (sampled ctxA (trace (good 32 2) good_disk)).
Proof.
  apply (@sampled_tokens_are_evaluated Z 0 (lib (good 32 2)) stdio []
           good_disk (outcome (good 32 2) good_disk)
           (disk_after (good 32 2) good_disk) (trace (good 32 2) good_disk)).
  vm_compute. reflexivity.
Defined.

Lemma persisted_state_round_trip_witness :
  In (CopyStateData ctxA (restored (good 32 2) good_disk))
     (trace (good 32 2) good_disk).
Proof.
  apply (@persisted_state_round_trip Z 0 (lib (good 32 2)) stdio [] good_disk
           (outcome (good 32 2) good_disk) (disk_after (good 32 2) good_disk)
           (trace (good 32 2) good_disk) ctxB
           (restored (good 32 2) good_disk) ToyFacts.storage_ok).
  - vm_compute. reflexivity.
  - find_event.
Defined.
